(** * High-availability controller of the Icinga DB ingester

    A shallow embedding of [package icingadb_ha_lib] (the [HA] struct, its
    critical-operation gate, the liveness predicate and the loop body of
    [HA.run]) together with the properties of the election protocol that
    the design document states about it.

    Conventions.
    - A [time.Time] is a number of nanoseconds on one time line; the zero
      value [time.Time{}] of the field [responsibleSince] is [None].
    - [int64] and [uint64] arithmetic done by the Go code wraps around and
      is written with [sub64] and [addU64]; arithmetic done inside an SQL
      statement is exact.
    - The table [icingadb_instance] is the list of its rows; a [SELECT]
      returns the matching rows in table order, an [INSERT] appends.
    - Every call of [time.Now()] in the loop body has a reading of its own
      in the record [Clock]; every SQL statement and the Redis publish may
      fail, as told by the record [Faults]. *)

From Stdlib Require Import ZArith List String Ascii Bool Lia.
Import ListNotations.
Open Scope Z_scope.

(** ** Machine integers and time *)

Definition wrap64 (z : Z) : Z := (z + 2 ^ 63) mod 2 ^ 64 - 2 ^ 63.

(** [a - b] on [int64]. *)
Definition sub64 (a b : Z) : Z := wrap64 (a - b).

(** [atomic.AddUint64(&x, d)]. *)
Definition addU64 (x d : Z) : Z := (x + d) mod 2 ^ 64.

(** [^uint64(0)]. *)
Definition maxU64 : Z := 2 ^ 64 - 1.

Definition Time := Z.

Definition Second : Z := 1000000000.

(** [t.Unix()]. *)
Definition Unix (t : Time) : Z := t / Second.

(** [t.Sub(u)]: a [time.Duration], saturating at the ends of [int64]. *)
Definition Sub (t u : Time) : Z :=
  Z.max (- 2 ^ 63) (Z.min (2 ^ 63 - 1) (t - u)).

(** [d.Seconds() >= 5.0].  [Seconds] is the float
    [float64(d / Second) + float64(d % Second) / 1e9]; its fractional part
    is below one, so the comparison with [5.0] is the comparison of the
    duration with five seconds. *)
Definition SecondsGe5 (d : Z) : bool := 5 * Second <=? d.

(** ** The data of the package *)

Inductive responsibility : Set :=
| readyForTakeover
| TakeoverNoSync
| TakeoverSync
| stop
| notReadyForTakeover.

Inductive responsibilityAction : Set :=
| noAction
| tryTakeover
| doTakeover
| ceaseOperation.

Definition responsibility_eqb (a b : responsibility) : bool :=
  match a, b with
  | readyForTakeover, readyForTakeover
  | TakeoverNoSync, TakeoverNoSync
  | TakeoverSync, TakeoverSync
  | stop, stop
  | notReadyForTakeover, notReadyForTakeover => true
  | _, _ => false
  end.

(** A [uuid.UUID] is sixteen bytes, here the number they spell. *)
Definition UUID := N.

(** A Go [error] value; [nil] is [None]. *)
Definition Err := string.
Definition error := option Err.

Record HA : Set := mkHA {
  ourUUID : UUID;
  icinga2MTime : Z;
  h_responsibility : responsibility;
  responsibleSince : option Time;
  runningCriticalOperations : Z;
  lastCriticalOperationEnd : Z
}.

(** [icingadb_connection.Environment]. *)
Record Environment : Set := mkEnv {
  ID : string;
  Name : string
}.

(** A row of [icingadb_instance]. *)
Record Row : Set := mkRow {
  id : UUID;
  environment_id : string;
  heartbeat : Z;
  responsible : string
}.

Definition Table := list Row.

(** ** Accessors of [HA] *)

Definition getResponsibility (h : HA) : responsibility := h_responsibility h.

(** [setResponsibility] stores [r] and returns the previous value. *)
Definition setResponsibility (h : HA) (r : responsibility) : HA * responsibility :=
  (mkHA (ourUUID h) (icinga2MTime h) r (responsibleSince h)
        (runningCriticalOperations h) (lastCriticalOperationEnd h),
   h_responsibility h).

Definition setResponsibleSince (h : HA) (s : option Time) : HA :=
  mkHA (ourUUID h) (icinga2MTime h) (h_responsibility h) s
       (runningCriticalOperations h) (lastCriticalOperationEnd h).

Definition addRunningCriticalOperations (h : HA) (d : Z) : HA :=
  mkHA (ourUUID h) (icinga2MTime h) (h_responsibility h) (responsibleSince h)
       (addU64 (runningCriticalOperations h) d) (lastCriticalOperationEnd h).

Definition storeLastCriticalOperationEnd (h : HA) (t : Z) : HA :=
  mkHA (ourUUID h) (icinga2MTime h) (h_responsibility h) (responsibleSince h)
       (runningCriticalOperations h) t.

Definition Icinga2HeartBeat (h : HA) (now : Time) : HA :=
  mkHA (ourUUID h) (Unix now) (h_responsibility h) (responsibleSince h)
       (runningCriticalOperations h) (lastCriticalOperationEnd h).

Definition IsResponsible (h : HA) : bool :=
  responsibility_eqb (getResponsibility h) TakeoverSync.

Definition icinga2IsAlive (h : HA) (now : Time) : bool :=
  sub64 (Unix now) (icinga2MTime h) <? 15.

(** The test of the [stop] case of the loop: no critical operation runs and
    the last one ended five seconds ago or more. *)
Definition drained (h : HA) (now : Time) : bool :=
  (runningCriticalOperations h =? 0)
  && (5 <=? sub64 (Unix now) (lastCriticalOperationEnd h)).

(** ** The critical-operation gate *)

Section Gate.
(** What a critical operation works on (the database, typically).  The
    operation may read the controller's atomics, not write them. *)
Variable World : Type.

Definition Op := HA -> World -> World * error.

(** [RunCriticalOperation]; [now] is the reading of [time.Now()] taken
    when [op] has returned. *)
Definition RunCriticalOperation (h : HA) (op : Op) (w : World) (now : Time)
  : HA * World * error :=
  match getResponsibility h with
  | TakeoverSync | stop =>
      let h1 := addRunningCriticalOperations h 1 in
      let '(w', err) := op h1 w in
      let h2 := storeLastCriticalOperationEnd h1 (Unix now) in
      let h3 := addRunningCriticalOperations h2 maxU64 in
      (h3, w', err)
  | _ => (h, w, None)
  end.
End Gate.

Arguments RunCriticalOperation {World} h op w now.

(** ** The database wrapper *)

(** The SQL statements of the package, one name per call site. *)
Inductive Stmt : Set :=
| SelectById          (* SELECT 1 ... WHERE id = ? *)
| UpdateHeartbeat     (* UPDATE ... SET environment_id=?, heartbeat=? WHERE id = ? *)
| InsertInstance      (* INSERT INTO icingadb_instance(...) VALUES (?, ?, ?, 'n') *)
| SelectResponsible   (* SELECT id, heartbeat ... WHERE environment_id = ? AND responsible = 'y' *)
| ResetEnvironment    (* UPDATE ... SET responsible='n' WHERE environment_id = ? *)
| ClaimFromStale      (* UPDATE ... SET responsible='y' WHERE id = ?, incumbent stale *)
| ClaimFree           (* UPDATE ... SET responsible='y' WHERE id = ?, no incumbent *)
| SelectFreshOthers   (* SELECT 1 ... WHERE environment_id = ? AND responsible = 'n' AND ? - heartbeat < 10 *)
| ReleaseOurs         (* UPDATE ... SET responsible='n' WHERE id = ? *)
| DeleteExpired       (* DELETE ... WHERE ? - heartbeat >= 30 *)
| Commit.

(** What goes wrong during one loop iteration: the error, if any, of each
    statement and of the Redis publish; and, when the publish returns an
    error, whether the message had reached the subscribers all the same
    (the client reports an error also when only the reply is lost). *)
Record Faults : Set := mkFaults {
  sqlErr : Stmt -> error;
  publishErr : error;
  publishReached : bool
}.

Definition noFaults : Faults := mkFaults (fun _ => None) None false.

(** A transaction body: it reads and writes the table or fails. *)
Definition Tx (A : Type) : Type := Table -> Err + (A * Table).

Definition ret {A : Type} (a : A) : Tx A := fun t => inr (a, t).

Definition bind {A B : Type} (m : Tx A) (k : A -> Tx B) : Tx B :=
  fun t => match m t with
           | inl e => inl e
           | inr (a, t') => k a t'
           end.

Notation "x <- m ;; k" := (bind m (fun x => k))
  (at level 61, m at next level, right associativity).
Notation "m ;;; k" := (bind m (fun _ => k))
  (at level 61, right associativity).

Section Statements.
Variable dbw : Faults.

(** Modelled from the spec: [DBWrapper.SqlFetchAllQuiet] is not part of
    the package; a [SELECT] gives the rows that satisfy its [WHERE]
    clause. *)
Definition SqlFetchAll (s : Stmt) (where_ : Row -> bool) : Tx (list Row) :=
  fun t => match sqlErr dbw s with
           | Some e => inl e
           | None => inr (filter where_ t, t)
           end.

(** Modelled from the spec: [DBWrapper.SqlExecQuiet] is not part of the
    package; an [UPDATE] assigns the columns of its [SET] clause in the
    rows that satisfy its [WHERE] clause. *)
Definition SqlUpdate (s : Stmt) (where_ : Row -> bool) (set : Row -> Row) : Tx unit :=
  fun t => match sqlErr dbw s with
           | Some e => inl e
           | None => inr (tt, map (fun r => if where_ r then set r else r) t)
           end.

(** Modelled from the spec: [DBWrapper.SqlExecQuiet] of an [INSERT] adds
    the row. *)
Definition SqlInsert (s : Stmt) (r : Row) : Tx unit :=
  fun t => match sqlErr dbw s with
           | Some e => inl e
           | None => inr (tt, t ++ [r])
           end.

(** Modelled from the spec: [DBWrapper.SqlExec] of a [DELETE] removes the
    rows that satisfy its [WHERE] clause. *)
Definition SqlDelete (s : Stmt) (where_ : Row -> bool) : Tx unit :=
  fun t => match sqlErr dbw s with
           | Some e => inl e
           | None => inr (tt, filter (fun r => negb (where_ r)) t)
           end.

(** Modelled from the spec: [DBWrapper.SqlTransactionQuiet] is not part
    of the package; it runs the body in one serializable transaction, whose
    writes are kept when the body returns [nil] and the commit succeeds,
    and rolled back otherwise. *)
Definition SqlTransaction {A : Type} (body : Tx A) (t : Table) : (Err + A) * Table :=
  match body t with
  | inl e => (inl e, t)
  | inr (a, t') =>
      match sqlErr dbw Commit with
      | Some e => (inl e, t)
      | None => (inr a, t')
      end
  end.
End Statements.

(** Column assignments of the [UPDATE] statements. *)
Definition setEnvHeartbeat (e : string) (hb : Z) (r : Row) : Row :=
  mkRow (id r) e hb (responsible r).

Definition setResponsible (v : string) (r : Row) : Row :=
  mkRow (id r) (environment_id r) (heartbeat r) v.

(** [WHERE] clauses. *)
Definition byId (u : UUID) (r : Row) : bool := (id r =? u)%N.

Definition byEnv (e : string) (r : Row) : bool :=
  String.eqb (environment_id r) e.

Definition byEnvResponsible (e v : string) (r : Row) : bool :=
  String.eqb (environment_id r) e && String.eqb (responsible r) v.

Definition byEnvResponsibleFresh (e v : string) (now : Z) (r : Row) : bool :=
  String.eqb (environment_id r) e && String.eqb (responsible r) v
  && (now - heartbeat r <? 10).

Definition expired (now : Z) (r : Row) : bool := 30 <=? now - heartbeat r.

(** [cleanUpInstances]. *)
Definition cleanUpInstances (dbw : Faults) (now : Time) (t : Table) : error * Table :=
  match SqlTransaction dbw (SqlDelete dbw DeleteExpired (expired (Unix now))) t with
  | (inl e, t') => (Some e, t')
  | (inr _, t') => (None, t')
  end.

(** ** Logging and Redis *)

Inductive Level : Set := Info | Warn.

(** A log line: its level, its message and, where the code adds it, the
    field [their_uuid]. *)
Record LogEntry : Set := mkLog {
  level : Level;
  message : string;
  their_uuid : option UUID
}.

(** The messages published so far, as (channel, payload), oldest first. *)
Definition Redis := list (string * string).

Definition hexDigit (n : N) : ascii :=
  nth (N.to_nat n) (list_ascii_of_string "0123456789abcdef") "0"%char.

Definition hexByte (b : N) : string :=
  String (hexDigit (b / 16)) (String (hexDigit (b mod 16)) EmptyString).

(** Byte [i] of the sixteen, the first being the most significant. *)
Definition uuidByte (u : UUID) (i : nat) : N :=
  ((u / 256 ^ N.of_nat (15 - i)) mod 256)%N.

Definition encodeHex (u : UUID) (from len : nat) : string :=
  concat "" (map (fun i => hexByte (uuidByte u i)) (seq from len)).

(** [uuid.UUID.String]: xxxxxxxx-xxxx-xxxx-xxxx-xxxxxxxxxxxx. *)
Definition UUID_String (u : UUID) : string :=
  (encodeHex u 0 4 ++ "-" ++ encodeHex u 4 2 ++ "-" ++ encodeHex u 6 2 ++ "-"
   ++ encodeHex u 8 2 ++ "-" ++ encodeHex u 10 6)%string.

Definition wakeupChannel : string := "icingadb:wakeup".

(** ** One iteration of the loop of [HA.run] *)

(** The readings of [time.Now()], one per call site of the loop body. *)
Record Clock : Set := mkClock {
  nowDecide : Time;    (* in icinga2IsAlive, or in the test of the stop case *)
  nowUpsert : Time;    (* heartbeat written by the UPDATE or the INSERT *)
  nowFetch : Time;     (* age of the responsible row *)
  nowConfirm : Time;   (* responsibleSince, or responsibleFor *)
  nowCease : Time      (* argument of the SELECT of ceaseOperation *)
}.

(** A clock that does not move during the iteration. *)
Definition frozen (t : Time) : Clock := mkClock t t t t t.

(** The variables of [run] that live across iterations. *)
Record Locals : Set := mkLocals {
  nextAction : responsibilityAction;
  theirUUID : UUID
}.

(** How an iteration ends: with [continue], at the [select] that waits for
    the ticker, or with [return err]. *)
Inductive Outcome : Set :=
| Continue
| Wait
| Return (e : Err).

Record Iteration : Set := mkIter {
  ha : HA;
  locals : Locals;
  table : Table;
  redis : Redis;
  logs : list LogEntry;
  outcome : Outcome
}.

Definition logNotRunning : LogEntry :=
  mkLog Warn "Icinga 2 detected as not running, stopping." None.

Definition logRunningAgain : LogEntry :=
  mkLog Info "Icinga 2 detected as running again." None.

Definition logTakingOver (their : UUID) : LogEntry :=
  mkLog Info "Taking over" (Some their).

Definition logOtherResponsible (their : UUID) : LogEntry :=
  mkLog Info "Other instance is responsible" (Some their).

Definition logCeasing : LogEntry :=
  mkLog Info "Other instance is responsible. Ceasing operations." None.

(** The first [switch]: the next action, or [None] where the case ends in
    [continue]. *)
Definition chooseAction (h : HA) (clk : Clock)
  : HA * option responsibilityAction * list LogEntry :=
  match getResponsibility h with
  | readyForTakeover =>
      if negb (icinga2IsAlive h (nowDecide clk))
      then (fst (setResponsibility h notReadyForTakeover), None, [logNotRunning])
      else (h, Some tryTakeover, [])
  | TakeoverNoSync =>
      if negb (icinga2IsAlive h (nowDecide clk))
      then (fst (setResponsibility h stop), None, [logNotRunning])
      else (h, Some tryTakeover, [])
  | TakeoverSync =>
      if negb (icinga2IsAlive h (nowDecide clk))
      then (fst (setResponsibility h stop), None, [logNotRunning])
      else (h, Some doTakeover, [])
  | stop =>
      if (runningCriticalOperations h =? 0)
         && (5 <=? sub64 (Unix (nowDecide clk)) (lastCriticalOperationEnd h))
      then (h, Some ceaseOperation, [])
      else (h, Some doTakeover, [])
  | notReadyForTakeover =>
      if icinga2IsAlive h (nowDecide clk)
      then (fst (setResponsibility h readyForTakeover), None, [logRunningAgain])
      else (h, Some noAction, [])
  end.

Section Election.
Variable dbw : Faults.
Variable clk : Clock.
Variable h : HA.
Variable env : Environment.

(** The first block of the transaction: refresh our row or create it. *)
Definition upsert : Tx unit :=
  rows <- SqlFetchAll dbw SelectById (byId (ourUUID h)) ;;
  if (0 <? List.length rows)%nat
  then SqlUpdate dbw UpdateHeartbeat (byId (ourUUID h))
                 (setEnvHeartbeat (ID env) (Unix (nowUpsert clk)))
  else SqlInsert dbw InsertInstance
                 (mkRow (ourUUID h) (ID env) (Unix (nowUpsert clk)) "n").

(** The rest of it: who is responsible, and do we take over?  The result
    is [justTakenOver] and the new value of [theirUUID]. *)
Definition decideTakeover (their : UUID) : Tx (bool * UUID) :=
  rows <- SqlFetchAll dbw SelectResponsible (byEnvResponsible (ID env) "y") ;;
  match rows with
  | r0 :: _ =>
      if (id r0 =? ourUUID h)%N then ret (true, id r0)
      else if 10 <=? sub64 (Unix (nowFetch clk)) (heartbeat r0) then
        SqlUpdate dbw ResetEnvironment (byEnv (ID env)) (setResponsible "n") ;;;
        SqlUpdate dbw ClaimFromStale (byId (ourUUID h)) (setResponsible "y") ;;;
        ret (true, id r0)
      else ret (false, id r0)
  | [] =>
      SqlUpdate dbw ClaimFree (byId (ourUUID h)) (setResponsible "y") ;;;
      ret (true, their)
  end.

Definition election (their : UUID) : Tx (bool * UUID) :=
  upsert ;;; decideTakeover their.

(** The transaction of [ceaseOperation]. *)
Definition release : Tx unit :=
  rows <- SqlFetchAll dbw SelectFreshOthers
            (byEnvResponsibleFresh (ID env) "n" (Unix (nowCease clk))) ;;
  if (0 <? List.length rows)%nat
  then SqlUpdate dbw ReleaseOurs (byId (ourUUID h)) (setResponsible "n")
  else ret tt.
End Election.

Section LoopBody.
Variable dbw : Faults.
Variable clk : Clock.
Variable env : Environment.

(** What follows the commit of the election: the confirmation window,
    the promotion and the wakeup. *)
Definition confirm (h : HA) (their : UUID) (rds : Redis)
  : HA * Redis * list LogEntry * Outcome :=
  match responsibleSince h with
  | None =>
      let h1 := setResponsibleSince h (Some (nowConfirm clk)) in
      (fst (setResponsibility h1 TakeoverNoSync), rds, [], Wait)
  | Some since =>
      if SecondsGe5 (Sub (nowConfirm clk) since) then
        let '(h1, previous) := setResponsibility h TakeoverSync in
        let lg := if responsibility_eqb previous TakeoverNoSync
                  then [logTakingOver their] else [] in
        let published := rds ++ [(wakeupChannel, UUID_String (ourUUID h))] in
        match publishErr dbw with
        | Some e => (h1, if publishReached dbw then published else rds, lg, Return e)
        | None => (h1, published, lg, Wait)
        end
      else (h, rds, [], Wait)
  end.

(** [case tryTakeover, doTakeover]. *)
Definition takeover (h : HA) (l : Locals) (t : Table) (rds : Redis) : Iteration :=
  match SqlTransaction dbw (election dbw clk h env (theirUUID l)) t with
  | (inl e, t') => mkIter h l t' rds [] (Return e)
  | (inr (justTakenOver, their), t') =>
      let l' := mkLocals (nextAction l) their in
      let '(h1, rds1, lg1, out1) :=
        if justTakenOver && negb (responsibility_eqb (getResponsibility h) stop)
        then confirm h their rds
        else (h, rds, [], Wait) in
      match out1 with
      | Return e => mkIter h1 l' t' rds1 lg1 (Return e)
      | _ =>
          let lg2 := if negb justTakenOver then [logOtherResponsible their] else [] in
          mkIter h1 l' t' rds1 (lg1 ++ lg2) Wait
      end
  end.

(** [case ceaseOperation]. *)
Definition cease (h : HA) (l : Locals) (t : Table) (rds : Redis) : Iteration :=
  match SqlTransaction dbw (release dbw clk h env) t with
  | (inl e, t') => mkIter h l t' rds [] (Return e)
  | (inr _, t') =>
      let h1 := setResponsibleSince h None in
      mkIter (fst (setResponsibility h1 notReadyForTakeover)) l t' rds [logCeasing] Wait
  end.

(** The second [switch]. *)
Definition perform (h : HA) (l : Locals) (t : Table) (rds : Redis) : Iteration :=
  match nextAction l with
  | noAction => mkIter h l t rds [] Wait
  | tryTakeover | doTakeover => takeover h l t rds
  | ceaseOperation => cease h l t rds
  end.

(** The body of the [for] loop, up to the [select]. *)
Definition iteration (h : HA) (l : Locals) (t : Table) (rds : Redis) : Iteration :=
  match chooseAction h clk with
  | (h1, None, lg) => mkIter h1 l t rds lg Continue
  | (h1, Some a, lg) =>
      let r := perform h1 (mkLocals a (theirUUID l)) t rds in
      mkIter (ha r) (locals r) (table r) (redis r) (lg ++ logs r) (outcome r)
  end.
End LoopBody.

(** The [HA] value [run] starts its loop with: the zero value, the fresh
    identifier, and the first [Icinga2HeartBeat]. *)
Definition startHA (u : UUID) (now : Time) : HA :=
  Icinga2HeartBeat (mkHA u 0 readyForTakeover None 0 0) now.

Definition startLocals : Locals := mkLocals noAction 0%N.

(** The loop goes round: the next iteration starts from what the last one
    left. *)
Definition again (dbw : Faults) (clk : Clock) (env : Environment) (it : Iteration)
  : Iteration :=
  iteration dbw clk env (ha it) (locals it) (table it) (redis it).

(** ** Shorthands for what the loop body writes *)

(** The two claiming writes, as functions on the table. *)
Definition claimOurs (u : UUID) (t : Table) : Table :=
  map (fun r => if byId u r then setResponsible "y" r else r) t.

Definition resetEnv (e : string) (t : Table) : Table :=
  map (fun r => if byEnv e r then setResponsible "n" r else r) t.

(** The controller after a first claim, and after a promotion. *)
Definition provisional (h : HA) (now : Time) : HA :=
  mkHA (ourUUID h) (icinga2MTime h) TakeoverNoSync (Some now)
       (runningCriticalOperations h) (lastCriticalOperationEnd h).

Definition promoted (h : HA) : HA :=
  mkHA (ourUUID h) (icinga2MTime h) TakeoverSync (responsibleSince h)
       (runningCriticalOperations h) (lastCriticalOperationEnd h).

Definition wakeup (h : HA) : string * string :=
  (wakeupChannel, UUID_String (ourUUID h)).

Definition takingOverLog (h : HA) (their : UUID) : list LogEntry :=
  match getResponsibility h with
  | TakeoverNoSync => [logTakingOver their]
  | _ => []
  end.

(** The iteration runs an election that commits with [justTakenOver],
    outside [stop], with [responsibleSince] set and five seconds old or
    more; [their] and [t'] are what the transaction leaves in [theirUUID]
    and in the table.  These are the iterations that get to the
    assignment of [TakeoverSync] and to the call of [Publish]. *)
Definition renews (dbw : Faults) (clk : Clock) (env : Environment) (h : HA)
           (l : Locals) (t : Table) (their : UUID) (t' : Table) : Prop :=
  icinga2IsAlive h (nowDecide clk) = true
  /\ getResponsibility h <> stop
  /\ getResponsibility h <> notReadyForTakeover
  /\ SqlTransaction dbw (election dbw clk h env (theirUUID l)) t
     = (inr (true, their), t')
  /\ exists since, responsibleSince h = Some since
                   /\ 5 * Second <= nowConfirm clk - since.

(** The table after a successful upsert. *)
Definition upsertTable (u : UUID) (e : string) (hb : Z) (t : Table) : Table :=
  if existsb (byId u) t
  then map (fun r => if byId u r then setEnvHeartbeat e hb r else r) t
  else t ++ [mkRow u e hb "n"].

(** ** Runs of one controller *)

(** What happens to a controller: its loop goes round once, or the others
    write (the goroutines of the process to its atomics, the other replicas
    and the sweeper to the registry). *)
Inductive Happening : Set :=
| Iterates (dbw : Faults) (clk : Clock) (env : Environment)
| Outside (mtime running lastEnd : Z) (t : Table).

Definition happen (it : Iteration) (hp : Happening) : Iteration :=
  match hp with
  | Iterates dbw clk env =>
      match outcome it with
      | Return _ => it
      | _ => again dbw clk env it
      end
  | Outside mtime running lastEnd t =>
      mkIter (mkHA (ourUUID (ha it)) mtime (h_responsibility (ha it))
                   (responsibleSince (ha it)) running lastEnd)
             (locals it) t (redis it) (logs it) (outcome it)
  end.

(** The controller as [run] enters its loop. *)
Definition started (u : UUID) (now : Time) (t : Table) : Iteration :=
  mkIter (startHA u now) startLocals t [] [] Wait.

Definition after (hs : list Happening) (it : Iteration) : Iteration :=
  fold_left happen hs it.

(** In the history [hs] the controller claimed at [since]: an iteration
    found [responsibleSince] unset and left it at [since], its reading of
    the clock, in [TakeoverNoSync]. *)
Definition claimedAt (start : Iteration) (hs : list Happening) (since : Time) : Prop :=
  exists hs1 dbw clk env hs2,
    hs = hs1 ++ Iterates dbw clk env :: hs2
    /\ nowConfirm clk = since
    /\ responsibleSince (ha (after hs1 start)) = None
    /\ getResponsibility (ha (after (hs1 ++ [Iterates dbw clk env]) start))
       = TakeoverNoSync.

(** ... and an iteration that read the clock five seconds later or more
    came after that claim. *)
Definition confirmedAfter (start : Iteration) (hs : list Happening) (since : Time)
  : Prop :=
  exists hs1 dbw1 clk1 env1 hs2 dbw2 clk2 env2 hs3,
    hs = hs1 ++ Iterates dbw1 clk1 env1 :: hs2 ++ Iterates dbw2 clk2 env2 :: hs3
    /\ nowConfirm clk1 = since
    /\ responsibleSince (ha (after hs1 start)) = None
    /\ getResponsibility (ha (after (hs1 ++ [Iterates dbw1 clk1 env1]) start))
       = TakeoverNoSync
    /\ 5 * Second <= nowConfirm clk2 - since.

(** ** The whole of [run], [Run] and the sweeper *)

(** What the [select] at the end of the loop body receives: the ticker, a
    new environment (after which the loop waits for the ticker), or the
    closing of the environment channel. *)
Inductive Wake : Set :=
| TickerFired
| EnvReceived (env : Environment)
| EnvClosed.

(** What [run] meets on its way: a time round its loop (with the faults and
    the clock readings of the iteration and what the [select] receives if
    the iteration gets there), or the writes of the others (the goroutines
    of the process to the atomics, the replicas and the sweeper to the
    table). *)
Inductive Step : Set :=
| Round (dbw : Faults) (clk : Clock) (w : Wake)
| Meanwhile (mtime running lastEnd : Z) (t : Table).

(** Has [run] returned, and what? *)
Inductive Exit : Set :=
| Running
| Returned (e : error).

Record Loop : Set := mkLoop {
  lp_ha : HA;
  lp_locals : Locals;
  lp_env : Environment;
  lp_table : Table;
  lp_redis : Redis;
  lp_logs : list LogEntry;
  lp_exit : Exit
}.

Definition step (lp : Loop) (st : Step) : Loop :=
  match st with
  | Round dbw clk w =>
      match lp_exit lp with
      | Returned _ => lp
      | Running =>
          let it := iteration dbw clk (lp_env lp) (lp_ha lp) (lp_locals lp)
                              (lp_table lp) (lp_redis lp) in
          let lg := (lp_logs lp ++ logs it)%list in
          match outcome it with
          | Continue =>
              mkLoop (ha it) (locals it) (lp_env lp) (table it) (redis it) lg Running
          | Return e =>
              mkLoop (ha it) (locals it) (lp_env lp) (table it) (redis it) lg
                     (Returned (Some e))
          | Wait =>
              match w with
              | TickerFired =>
                  mkLoop (ha it) (locals it) (lp_env lp) (table it) (redis it) lg Running
              | EnvReceived env =>
                  mkLoop (ha it) (locals it) env (table it) (redis it) lg Running
              | EnvClosed =>
                  mkLoop (ha it) (locals it) (lp_env lp) (table it) (redis it) lg
                         (Returned None)
              end
          end
      end
  | Meanwhile mtime running lastEnd t =>
      mkLoop (mkHA (ourUUID (lp_ha lp)) mtime (h_responsibility (lp_ha lp))
                   (responsibleSince (lp_ha lp)) running lastEnd)
             (lp_locals lp) (lp_env lp) t (lp_redis lp) (lp_logs lp) (lp_exit lp)
  end.

Definition logWaiting : LogEntry :=
  mkLog Info "Waiting for Icinga 2 to tell us its environment" None.

Definition logReceived : LogEntry :=
  mkLog Info "Received environment from Icinga 2" None.

Definition setOurUUID (h : HA) (u : UUID) : HA :=
  mkHA u (icinga2MTime h) (h_responsibility h) (responsibleSince h)
       (runningCriticalOperations h) (lastCriticalOperationEnd h).

(** [HA.run] (the name [run] is taken by the schedule of the two
    replicas): [first] is what the first receive on the environment channel
    gives ([None] when the channel is closed), [newRandom] the result of
    [uuid.NewRandom()], [now] the reading of the first heartbeat, [script]
    what the loop meets. *)
Definition HA_run (h : HA) (first : option Environment) (newRandom : UUID * error)
           (now : Time) (t : Table) (rds : Redis) (script : list Step) : Loop :=
  match first with
  | None => mkLoop h startLocals (mkEnv "" "") t rds [logWaiting] (Returned None)
  | Some env =>
      let h1 := setOurUUID h (fst newRandom) in
      match snd newRandom with
      | Some e => mkLoop h1 startLocals env t rds [logWaiting] (Returned (Some e))
      | None =>
          fold_left step script
                    (mkLoop (Icinga2HeartBeat h1 now) startLocals env t rds
                            [logWaiting; logReceived] Running)
      end
  end.

(** [Run], as far as its own goroutine goes: what it sends on [chErr]. *)
Definition Run (h : HA) (first : option Environment) (newRandom : UUID * error)
           (now : Time) (t : Table) (rds : Redis) (script : list Step) : list Err :=
  match lp_exit (HA_run h first newRandom now t rds script) with
  | Returned (Some e) => [e]
  | _ => []
  end.

(** [cleanUpInstancesAsync], for the ticks of its five-minute ticker that
    have fired: the errors sent on [chErr], oldest first, and the table. *)
Fixpoint cleanUpInstancesAsync (ticks : list (Faults * Time)) (t : Table)
  : list Err * Table :=
  match ticks with
  | [] => ([], t)
  | (dbw, now) :: rest =>
      match cleanUpInstances dbw now t with
      | (Some e, t') =>
          let '(errs, t'') := cleanUpInstancesAsync rest t' in (e :: errs, t'')
      | (None, t') => cleanUpInstancesAsync rest t'
      end
  end.

(** The error of a sweep under the faults [dbw]. *)
Definition sweepErr (dbw : Faults) : error :=
  match sqlErr dbw DeleteExpired with
  | Some e => Some e
  | None => sqlErr dbw Commit
  end.

(** The rows of ours released by [ceaseOperation]. *)
Definition releaseOurs (u : UUID) (t : Table) : Table :=
  map (fun r => if byId u r then setResponsible "n" r else r) t.

(** What the writes of an iteration do to a row that is not ours. *)
Definition spared (e : string) (x x' : Row) : Prop :=
  id x' = id x
  /\ environment_id x' = environment_id x
  /\ heartbeat x' = heartbeat x
  /\ (responsible x' = responsible x
      \/ (environment_id x = e /\ responsible x' = "n"%string)).

(** The moves of the controller from one state to the next. *)
Definition edge (a b : responsibility) : bool :=
  match a, b with
  | readyForTakeover, notReadyForTakeover
  | readyForTakeover, TakeoverNoSync
  | TakeoverNoSync, TakeoverSync
  | TakeoverNoSync, stop
  | TakeoverSync, stop
  | stop, notReadyForTakeover
  | notReadyForTakeover, readyForTakeover => true
  | _, _ => responsibility_eqb a b
  end.

(** [responsibleSince] is set in the states in which the replica has
    taken over, and in those only. *)
Definition sinceFits (h : HA) : Prop :=
  match getResponsibility h with
  | readyForTakeover | notReadyForTakeover => responsibleSince h = None
  | _ => responsibleSince h <> None
  end.

(** The script holds no fault and does not close the channel. *)
Definition undisturbed (st : Step) : Prop :=
  match st with
  | Round dbw _ w => dbw = noFaults /\ w <> EnvClosed
  | Meanwhile _ _ _ _ => True
  end.

(** ** Two replicas on one registry *)

Inductive Replica : Set := ReplicaA | ReplicaB.

Definition peer (r : Replica) : Replica :=
  match r with ReplicaA => ReplicaB | ReplicaB => ReplicaA end.

(** A replica: its controller, the variables of its loop (with the
    environment it works for), the Redis of its host, whether its [run]
    has returned, and the time at which its ticker last fired. *)
Record Node : Set := mkNode {
  node_ha : HA;
  node_locals : Locals;
  node_env : Environment;
  node_redis : Redis;
  node_exit : Exit;
  ticked : Time
}.

(** The system: the shared table, the two replicas, the simulated clock,
    and the time at which a replica last changed its responsibility. *)
Record Cluster : Set := mkCluster {
  registry : Table;
  nodeA : Node;
  nodeB : Node;
  clock : Time;
  changed : Time
}.

Definition node (c : Cluster) (r : Replica) : Node :=
  match r with ReplicaA => nodeA c | ReplicaB => nodeB c end.

Definition state (c : Cluster) (r : Replica) : responsibility :=
  getResponsibility (node_ha (node c r)).

(** A schedule is a list of events.  A replica goes once round the loop of
    its [run], with the faults and the clock readings of the iteration
    and with what its [select] receives (a new environment included); or
    its upstream pings it ([Icinga2HeartBeat]); or the goroutines that run
    critical operations write the gate ([RunCriticalOperation]). *)
Inductive Event : Set :=
| Tick (r : Replica) (dbw : Faults) (clk : Clock) (w : Wake)
| Beat (r : Replica) (now : Time)
| Gate (r : Replica) (running lastEnd : Z) (now : Time).


Definition setNode (c : Cluster) (r : Replica) (n : Node) (t : Table)
           (now moved : Time) : Cluster :=
  match r with
  | ReplicaA => mkCluster t n (nodeB c) now moved
  | ReplicaB => mkCluster t (nodeA c) n now moved
  end.

(** The loop of replica [r], on the registry as it is now. *)
Definition loopOf (c : Cluster) (r : Replica) : Loop :=
  let n := node c r in
  mkLoop (node_ha n) (node_locals n) (node_env n) (registry c) (node_redis n) []
         (node_exit n).

Definition exec (ev : Event) (c : Cluster) : Cluster :=
  match ev with
  | Tick r dbw clk w =>
      let n := node c r in
      let lp := step (loopOf c r) (Round dbw clk w) in
      let moved := negb (responsibility_eqb (getResponsibility (lp_ha lp))
                                            (getResponsibility (node_ha n))) in
      setNode c r
              (mkNode (lp_ha lp) (lp_locals lp) (lp_env lp) (lp_redis lp) (lp_exit lp)
                      (nowDecide clk))
              (lp_table lp) (nowDecide clk)
              (if moved then nowDecide clk else changed c)
  | Beat r now =>
      let n := node c r in
      setNode c r (mkNode (Icinga2HeartBeat (node_ha n) now) (node_locals n)
                          (node_env n) (node_redis n) (node_exit n) (ticked n))
              (registry c) now (changed c)
  | Gate r running lastEnd now =>
      let n := node c r in
      let h := node_ha n in
      setNode c r (mkNode (mkHA (ourUUID h) (icinga2MTime h) (h_responsibility h)
                                (responsibleSince h) running lastEnd)
                          (node_locals n) (node_env n) (node_redis n) (node_exit n)
                          (ticked n))
              (registry c) now (changed c)
  end.

Definition run (evs : list Event) (c : Cluster) : Cluster :=
  fold_left (fun c ev => exec ev c) evs c.

(** [P] holds of each event of the schedule, in the system as the event
    finds it. *)
Fixpoint along (P : Cluster -> Event -> Prop) (evs : list Event) (c : Cluster) : Prop :=
  match evs with
  | [] => True
  | ev :: evs' => P c ev /\ along P evs' (exec ev c)
  end.


(** The heartbeats are not stale: when a replica iterates, a row of its
    peer that is marked responsible has a heartbeat less than ten seconds
    old at the reading of the clock the iteration tests it with. *)
Definition nonStale (c : Cluster) (ev : Event) : bool :=
  match ev with
  | Tick r _ clk _ =>
      forallb (fun x => implb (byId (ourUUID (node_ha (node c (peer r)))) x
                               && String.eqb (responsible x) "y")
                              (sub64 (Unix (nowFetch clk)) (heartbeat x) <? 10))
              (registry c)
  | _ => true
  end.







(** What the registry says of a replica [u]: it stands by (its rows are
    marked ['n']), or it holds the environment [e] (it has a row, its rows
    are marked ['y'], and no other row of [e] is). *)
Definition standsBy (u : UUID) (t : Table) : Prop :=
  forall x, In x t -> id x = u -> responsible x = "n"%string.

Definition holds (u : UUID) (e : string) (t : Table) : Prop :=
  (exists x, In x t /\ id x = u)
  /\ (forall x, In x t -> id x = u -> responsible x = "y"%string)
  /\ (forall x, In x t -> environment_id x = e -> responsible x = "y"%string -> id x = u).

(** The rows of [u] carry the environment [e] and the heartbeat [hb]. *)
Definition owns (u : UUID) (e : string) (hb : Z) (t : Table) : Prop :=
  forall x, In x t -> id x = u -> environment_id x = e /\ heartbeat x = hb.







(** One second of a schedule on the tickers: each replica is pinged, then
    replica B and replica A go round their loops, A's [select] receiving
    [wA]. *)
Definition second (t : Z) (wA : Wake) : list Event :=
  [Beat ReplicaA (t * Second); Beat ReplicaB (t * Second);
   Tick ReplicaB noFaults (frozen (t * Second)) TickerFired;
   Tick ReplicaA noFaults (frozen (t * Second)) wA].

Fixpoint everySecond (seconds : nat) (t : Z) : list Event :=
  match seconds with
  | O => []
  | S k => second t TickerFired ++ everySecond k (t + 1)
  end.


(** The two replicas start together on an empty registry for the
    environment E; replica A is sent to the environment F at the
    hundred-and-seventh second and back to E at the hundred-and-fourteenth. *)
Definition warmStart : Cluster :=
  mkCluster []
            (mkNode (startHA 1%N (100 * Second)) startLocals (mkEnv "E" "production")
                    [] Running (100 * Second))
            (mkNode (startHA 2%N (100 * Second)) startLocals (mkEnv "E" "production")
                    [] Running (100 * Second))
            (100 * Second) (100 * Second).


(** Replica A alone on its ticker, replica B being held up. *)
Fixpoint onlyA (seconds : nat) (t : Z) : list Event :=
  match seconds with
  | O => []
  | S k => Beat ReplicaA (t * Second)
           :: Tick ReplicaA noFaults (frozen (t * Second)) TickerFired
           :: onlyA k (t + 1)
  end.

(** Replica B is promoted at the hundred-and-sixth second and then held up
    for [pause] seconds, after which both are on their tickers again. *)
Definition heldUp (pause : nat) : list Event :=
  everySecond 6 101 ++ onlyA pause 107 ++ everySecond 6 (107 + Z.of_nat pause).

(** * Properties *)

(** ** Arithmetic of the thresholds *)

Lemma wrap64_exact (z : Z) : - 2 ^ 63 <= z < 2 ^ 63 -> wrap64 z = z.
Proof.
  intros Hz. unfold wrap64.
  rewrite Z.mod_small by lia. lia.
Qed.

(** Within [int64], [sub64] is the subtraction. *)
Lemma sub64_exact (a b : Z) : - 2 ^ 63 <= a - b < 2 ^ 63 -> sub64 a b = a - b.
Proof. apply wrap64_exact. Qed.

(** The saturation of [Sub] does not show at five seconds. *)
Lemma SecondsGe5_Sub (t u : Time) :
  SecondsGe5 (Sub t u) = true <-> 5 * Second <= t - u.
Proof.
  unfold SecondsGe5, Sub, Second. rewrite Z.leb_le.
  assert (H63 : 2 ^ 63 = 9223372036854775808) by reflexivity.
  rewrite H63. lia.
Qed.

(** Adding one and then [^uint64(0)] gives the counter back. *)
Lemma addU64_inc_dec (k : Z) : addU64 (addU64 k 1) maxU64 = k mod 2 ^ 64.
Proof.
  unfold addU64, maxU64.
  rewrite Zplus_mod_idemp_l.
  replace (k + 1 + (2 ^ 64 - 1)) with (k + 1 * 2 ^ 64) by lia.
  apply Z_mod_plus_full.
Qed.

Lemma responsibility_eqb_eq (a b : responsibility) :
  responsibility_eqb a b = true <-> a = b.
Proof. destruct a, b; simpl; split; congruence. Qed.

(** ** The first switch *)


Lemma iteration_perform dbw clk env h l t rds h1 a lg :
  chooseAction h clk = (h1, Some a, lg) ->
  iteration dbw clk env h l t rds =
  let r := perform dbw clk env h1 (mkLocals a (theirUUID l)) t rds in
  mkIter (ha r) (locals r) (table r) (redis r) (lg ++ logs r) (outcome r).
Proof. intros H. unfold iteration. rewrite H. reflexivity. Qed.

(** C7.  The liveness transitions of one loop iteration, where the
    upstream is alive when [now - icinga2MTime < 15] (in seconds, on
    [int64], which is the plain difference whenever it fits): a replica
    that is ready for takeover and sees the upstream
    dead becomes not ready; one that has taken over (syncing or not) and
    sees it dead goes to [stop]; one that is not ready and sees it alive
    becomes ready again; one that is not ready and sees it dead chooses
    [noAction] and nothing changes. *)
Theorem liveness_transitions dbw clk env h l t rds :
  let alive := sub64 (Unix (nowDecide clk)) (icinga2MTime h) <? 15 in
  let it := iteration dbw clk env h l t rds in
  icinga2IsAlive h (nowDecide clk) = alive /\
  (- 2 ^ 63 <= Unix (nowDecide clk) - icinga2MTime h < 2 ^ 63 ->
   alive = (Unix (nowDecide clk) - icinga2MTime h <? 15)) /\
  match getResponsibility h, alive with
  | readyForTakeover, false =>
      getResponsibility (ha it) = notReadyForTakeover
      /\ table it = t /\ redis it = rds
  | TakeoverNoSync, false | TakeoverSync, false =>
      getResponsibility (ha it) = stop
      /\ table it = t /\ redis it = rds
  | notReadyForTakeover, true =>
      getResponsibility (ha it) = readyForTakeover
      /\ table it = t /\ redis it = rds
  | notReadyForTakeover, false =>
      nextAction (locals it) = noAction
      /\ ha it = h /\ table it = t /\ redis it = rds /\ outcome it = Wait
  | _, _ => True
  end.
Proof.
  intros alive it. split; [reflexivity|]. split.
  { intros Hfit. subst alive. rewrite sub64_exact by exact Hfit. reflexivity. }
  subst it. unfold iteration, chooseAction, icinga2IsAlive.
  fold alive.
  destruct (getResponsibility h), alive; simpl; auto.
Qed.

(** ** The stop state and the gate *)

(** In [stop] an election changes nothing in the controller: the guard
    [h.getResponsibility() != stop] keeps the confirmation code out. *)
Lemma takeover_stop dbw clk env h l t rds :
  getResponsibility h = stop ->
  ha (takeover dbw clk env h l t rds) = h
  /\ redis (takeover dbw clk env h l t rds) = rds.
Proof.
  intros Hs. unfold takeover.
  destruct (SqlTransaction dbw _ t) as [[e | [jto their]] t']; simpl; auto.
  rewrite Hs. simpl. rewrite andb_false_r. simpl. auto.
Qed.

(** [ceaseOperation] either fails and leaves the controller as it was, or
    ends not ready for takeover with [responsibleSince] zeroed. *)
Lemma cease_ha dbw clk env h l t rds :
  let it := cease dbw clk env h l t rds in
  (exists e, outcome it = Return e /\ ha it = h /\ table it = t)
  \/ (outcome it = Wait
      /\ ha it = mkHA (ourUUID h) (icinga2MTime h) notReadyForTakeover None
                      (runningCriticalOperations h) (lastCriticalOperationEnd h)).
Proof.
  unfold cease, SqlTransaction.
  destruct (release dbw clk h env t) as [e | [u t']]; simpl.
  - left. eauto.
  - destruct (sqlErr dbw Commit); simpl; [left; eauto | right; auto].
Qed.

Lemma takeover_nextAction dbw clk env h l t rds :
  nextAction (locals (takeover dbw clk env h l t rds)) = nextAction l.
Proof.
  unfold takeover.
  destruct (SqlTransaction dbw _ t) as [[e | [jto their]] t']; [reflexivity|].
  destruct (if _ : bool then _ else _) as [[[h1 r1] l1] o1].
  destruct o1; reflexivity.
Qed.

Lemma cease_nextAction dbw clk env h l t rds :
  nextAction (locals (cease dbw clk env h l t rds)) = nextAction l.
Proof.
  unfold cease. destruct (SqlTransaction dbw _ t) as [[e | u] t']; reflexivity.
Qed.

Lemma chooseAction_stop h clk :
  getResponsibility h = stop ->
  chooseAction h clk =
  (h, Some (if drained h (nowDecide clk) then ceaseOperation else doTakeover), []).
Proof.
  intros Hs. unfold chooseAction, drained. rewrite Hs.
  destruct (_ && _); reflexivity.
Qed.

(** C4.  From [stop] the next action is [ceaseOperation] exactly when no
    critical operation is running and the last one ended at least five
    seconds ago, and [doTakeover] otherwise; the iteration leaves [stop]
    (for [notReadyForTakeover], the only way out) only in the first case,
    and while the gate is not drained the controller is left untouched.
    The seconds since the last end are counted on [int64], and are the
    plain difference whenever it fits. *)
Theorem stop_waits_for_drain dbw clk env h l t rds :
  getResponsibility h = stop ->
  let it := iteration dbw clk env h l t rds in
  let quiet := sub64 (Unix (nowDecide clk)) (lastCriticalOperationEnd h) in
  (nextAction (locals it) = ceaseOperation
   <-> runningCriticalOperations h = 0 /\ 5 <= quiet)
  /\ (nextAction (locals it) <> ceaseOperation -> nextAction (locals it) = doTakeover)
  /\ drained h (nowDecide clk) = (runningCriticalOperations h =? 0) && (5 <=? quiet)
  /\ (getResponsibility (ha it) = notReadyForTakeover
      -> runningCriticalOperations h = 0 /\ 5 <= quiet)
  /\ (getResponsibility (ha it) = stop \/ getResponsibility (ha it) = notReadyForTakeover)
  /\ (runningCriticalOperations h <> 0 \/ quiet < 5 -> ha it = h)
  /\ (- 2 ^ 63 <= Unix (nowDecide clk) - lastCriticalOperationEnd h < 2 ^ 63 ->
      quiet = Unix (nowDecide clk) - lastCriticalOperationEnd h).
Proof.
  intros Hs it quiet.
  assert (Hfit : - 2 ^ 63 <= Unix (nowDecide clk) - lastCriticalOperationEnd h < 2 ^ 63 ->
                 quiet = Unix (nowDecide clk) - lastCriticalOperationEnd h).
  { intros Hfit. subst quiet. apply sub64_exact. exact Hfit. }
  subst it.
  rewrite (iteration_perform _ _ _ _ _ _ _ _ _ _ (chooseAction_stop h clk Hs)).
  cbv zeta. cbn [ha locals].
  assert (Hd : drained h (nowDecide clk) = true
               <-> runningCriticalOperations h = 0 /\ 5 <= quiet).
  { unfold drained. fold quiet. rewrite andb_true_iff, Z.eqb_eq, Z.leb_le. tauto. }
  destruct (drained h (nowDecide clk)) eqn:Hg; unfold perform; cbn [nextAction].
  - (* the gate is drained: ceaseOperation *)
    rewrite cease_nextAction. cbn [nextAction].
    pose proof (cease_ha dbw clk env h (mkLocals ceaseOperation (theirUUID l)) t rds) as Hc.
    cbv zeta in Hc.
    assert (Hq : runningCriticalOperations h = 0 /\ 5 <= quiet) by (apply Hd; reflexivity).
    repeat split; auto; try congruence; try tauto; try lia.
    destruct Hc as [(e & _ & Hh & _) | (_ & Hh)]; rewrite Hh; auto.
  - (* it is not: doTakeover, and the state stays *)
    rewrite takeover_nextAction. cbn [nextAction].
    destruct (takeover_stop dbw clk env h (mkLocals doTakeover (theirUUID l)) t rds Hs)
      as [Hh _].
    rewrite Hh, Hs.
    assert (Hq : ~ (runningCriticalOperations h = 0 /\ 5 <= quiet)).
    { intros Hq. apply Hd in Hq. discriminate. }
    repeat split; auto; try congruence; try tauto.
Qed.

(** C8.  [RunCriticalOperation] never touches the responsibility.  When it
    is [TakeoverSync] or [stop], the operation is run while the counter of
    running operations is one higher, its result on the world and its error
    are what the caller gets, the end time is stored and the counter is
    back at its value; in every other state nothing is run and the result
    is [nil]. *)
Theorem RunCriticalOperation_gate (World : Type) (h : HA) (op : Op World)
        (w : World) (now : Time) :
  let r := RunCriticalOperation h op w now in
  let h' := fst (fst r) in
  getResponsibility h' = getResponsibility h
  /\ match getResponsibility h with
     | TakeoverSync | stop =>
         let during := addRunningCriticalOperations h 1 in
         runningCriticalOperations during = (runningCriticalOperations h + 1) mod 2 ^ 64
         /\ snd (fst r) = fst (op during w)
         /\ snd r = snd (op during w)
         /\ lastCriticalOperationEnd h' = Unix now
         /\ runningCriticalOperations h' = runningCriticalOperations h mod 2 ^ 64
         /\ ourUUID h' = ourUUID h
         /\ icinga2MTime h' = icinga2MTime h
         /\ responsibleSince h' = responsibleSince h
     | _ => r = (h, w, None)
     end.
Proof.
  intros r h'. subst h' r. unfold RunCriticalOperation.
  destruct (getResponsibility h) eqn:Hr; cbn; auto;
    (destruct (op (addRunningCriticalOperations h 1) w) as [w' err] eqn:Hop;
     cbn; rewrite addU64_inc_dec; repeat split; auto).
Qed.

(** ** The statements on the table *)

Lemma nth_error_map_if (p : Row -> bool) (f : Row -> Row) (t : Table) i r :
  nth_error t i = Some r ->
  nth_error (map (fun x => if p x then f x else x) t) i
  = Some (if p r then f r else r).
Proof. intros H. rewrite nth_error_map, H. reflexivity. Qed.

Lemma filter_nil_existsb (p : Row -> bool) (t : Table) :
  (0 <? List.length (filter p t))%nat = existsb p t.
Proof.
  induction t as [|r t IH]; simpl; [reflexivity|].
  destruct (p r); simpl; auto.
Qed.

(** What [upsert] computes, statement by statement. *)
Lemma upsert_unfold dbw clk h env t :
  upsert dbw clk h env t =
  match sqlErr dbw SelectById with
  | Some e => inl e
  | None =>
      if existsb (byId (ourUUID h)) t then
        match sqlErr dbw UpdateHeartbeat with
        | Some e => inl e
        | None => inr (tt, map (fun r => if byId (ourUUID h) r
                                         then setEnvHeartbeat (ID env) (Unix (nowUpsert clk)) r
                                         else r) t)
        end
      else
        match sqlErr dbw InsertInstance with
        | Some e => inl e
        | None => inr (tt, t ++ [mkRow (ourUUID h) (ID env) (Unix (nowUpsert clk)) "n"])
        end
  end.
Proof.
  unfold upsert, bind, SqlFetchAll, SqlUpdate, SqlInsert.
  destruct (sqlErr dbw SelectById); [reflexivity|].
  rewrite filter_nil_existsb.
  destruct (existsb _ t); reflexivity.
Qed.

(** C9.  The upsert of the election transaction.  It fails only with the
    error of its [SELECT] or of the one write it does.  When the table has
    a row with our identifier it writes with the [UPDATE]: the table keeps
    its length, a row of another identifier is untouched, and a row of ours
    keeps its identifier and its responsible flag and gets the environment
    and the heartbeat of this iteration.  When it has none it writes with
    the [INSERT]: one row is added, ours, with responsible ['n']. *)
Theorem upsert_updates_or_inserts dbw clk h env t :
  let present := existsb (byId (ourUUID h)) t in
  let write := if present then UpdateHeartbeat else InsertInstance in
  match upsert dbw clk h env t with
  | inl e =>
      sqlErr dbw SelectById = Some e
      \/ (sqlErr dbw SelectById = None /\ sqlErr dbw write = Some e)
  | inr (_, t') =>
      sqlErr dbw SelectById = None /\ sqlErr dbw write = None
      /\ if present then
           List.length t' = List.length t
           /\ forall i r, nth_error t i = Some r ->
                exists r', nth_error t' i = Some r'
                  /\ id r' = id r
                  /\ responsible r' = responsible r
                  /\ (id r = ourUUID h ->
                      environment_id r' = ID env
                      /\ heartbeat r' = Unix (nowUpsert clk))
                  /\ (id r <> ourUUID h -> r' = r)
         else
           t' = t ++ [mkRow (ourUUID h) (ID env) (Unix (nowUpsert clk)) "n"]
  end.
Proof.
  intros present write. subst write present.
  rewrite upsert_unfold.
  destruct (sqlErr dbw SelectById) as [e|]; [left; reflexivity|].
  destruct (existsb (byId (ourUUID h)) t).
  - destruct (sqlErr dbw UpdateHeartbeat) as [e|]; [right; auto|].
    repeat split; auto.
    + apply length_map.
    + intros i r Hi.
      exists (if byId (ourUUID h) r
              then setEnvHeartbeat (ID env) (Unix (nowUpsert clk)) r else r).
      split; [apply nth_error_map_if; assumption|].
      unfold byId. destruct (N.eqb_spec (id r) (ourUUID h)); simpl;
        repeat split; auto; intros; congruence.
  - destruct (sqlErr dbw InsertInstance) as [e|]; [right; auto|].
    repeat split; auto.
Qed.

(** ** Ceasing *)

Lemma byEnvResponsibleFresh_spec e v now r :
  byEnvResponsibleFresh e v now r = true
  <-> environment_id r = e /\ responsible r = v /\ now - heartbeat r < 10.
Proof.
  unfold byEnvResponsibleFresh.
  rewrite !andb_true_iff, !String.eqb_eq, Z.ltb_lt. tauto.
Qed.

Lemma release_unfold dbw clk h env t :
  release dbw clk h env t =
  match sqlErr dbw SelectFreshOthers with
  | Some e => inl e
  | None =>
      if existsb (byEnvResponsibleFresh (ID env) "n" (Unix (nowCease clk))) t then
        match sqlErr dbw ReleaseOurs with
        | Some e => inl e
        | None => inr (tt, map (fun r => if byId (ourUUID h) r
                                         then setResponsible "n" r else r) t)
        end
      else inr (tt, t)
  end.
Proof.
  unfold release, bind, SqlFetchAll, SqlUpdate, ret.
  destruct (sqlErr dbw SelectFreshOthers); [reflexivity|].
  rewrite filter_nil_existsb.
  destruct (existsb _ t); reflexivity.
Qed.


(** C6.  An execution of [ceaseOperation] leaves the table as it was unless
    a row of the environment has responsible ['n'] and a heartbeat less
    than ten seconds old; only then are our rows, and no others, set to
    ['n'], and they are whenever the transaction commits. *)
Theorem cease_releases_only_to_fresh dbw clk env h l t rds :
  let it := cease dbw clk env h l t rds in
  let fresh r := environment_id r = ID env /\ responsible r = "n"%string
                 /\ Unix (nowCease clk) - heartbeat r < 10 in
  (table it = t
   \/ ((exists r, In r t /\ fresh r)
       /\ outcome it = Wait
       /\ table it = map (fun r => if (id r =? ourUUID h)%N
                                   then mkRow (id r) (environment_id r) (heartbeat r) "n"
                                   else r) t))
  /\ ((forall r, In r t -> ~ fresh r) -> table it = t)
  /\ ((exists r, In r t /\ fresh r) -> outcome it = Wait ->
      forall r, In r (table it) -> id r = ourUUID h -> responsible r = "n"%string).
Proof.
  intros it fresh. subst it. unfold cease, SqlTransaction.
  rewrite release_unfold.
  destruct (sqlErr dbw SelectFreshOthers) as [e|]; simpl.
  { repeat split; auto. intros _ Hw. discriminate. }
  destruct (existsb _ t) eqn:Hex.
  - apply existsb_exists in Hex. destruct Hex as (r0 & Hin & Hf).
    apply byEnvResponsibleFresh_spec in Hf.
    destruct (sqlErr dbw ReleaseOurs) as [e|]; simpl.
    { repeat split; auto. intros _ Hw. discriminate. }
    destruct (sqlErr dbw Commit) as [e|]; simpl.
    { repeat split; auto. intros _ Hw. discriminate. }
    split; [right; split; [exists r0; auto | split; reflexivity]|].
    split.
    + intros Hno. exfalso. apply (Hno r0 Hin). exact Hf.
    + intros _ _ r Hr Hid.
      apply in_map_iff in Hr. destruct Hr as (x & Hx & _).
      unfold byId in Hx.
      destruct (N.eqb_spec (id x) (ourUUID h)); subst r; [reflexivity|].
      congruence.
  - destruct (sqlErr dbw Commit) as [e|]; simpl.
    { repeat split; auto. intros _ Hw. discriminate. }
    repeat split; auto.
    intros (r0 & Hin & Hf) _.
    assert (Hc : existsb (byEnvResponsibleFresh (ID env) "n" (Unix (nowCease clk))) t = true).
    { apply existsb_exists. exists r0. split; auto.
      apply byEnvResponsibleFresh_spec. exact Hf. }
    congruence.
Qed.

(** ** The election *)


(** After a successful upsert every row of ours carries the environment and
    the heartbeat just written, and there is one. *)
Lemma upsert_ours dbw clk h env t t1 :
  upsert dbw clk h env t = inr (tt, t1) ->
  (exists r, In r t1 /\ id r = ourUUID h)
  /\ (forall r, In r t1 -> id r = ourUUID h ->
      environment_id r = ID env /\ heartbeat r = Unix (nowUpsert clk)).
Proof.
  rewrite upsert_unfold.
  destruct (sqlErr dbw SelectById); [discriminate|].
  destruct (existsb (byId (ourUUID h)) t) eqn:Hex.
  - destruct (sqlErr dbw UpdateHeartbeat); [discriminate|].
    intros H. injection H as <-. split.
    + apply existsb_exists in Hex. destruct Hex as (r & Hin & Hr).
      exists (setEnvHeartbeat (ID env) (Unix (nowUpsert clk)) r). split.
      * apply in_map_iff. exists r. rewrite Hr. auto.
      * apply N.eqb_eq in Hr. exact Hr.
    + intros r Hin Hid. apply in_map_iff in Hin. destruct Hin as (x & Hx & _).
      destruct (byId (ourUUID h) x) eqn:Hb; subst r; [simpl; auto|].
      apply N.eqb_neq in Hb. contradiction.
  - destruct (sqlErr dbw InsertInstance); [discriminate|].
    intros H. injection H as <-. split.
    + eexists. split; [apply in_or_app; right; left; reflexivity | reflexivity].
    + intros r Hin Hid. apply in_app_or in Hin. destruct Hin as [Hin | [<- | []]].
      * exfalso.
        assert (Hc : existsb (byId (ourUUID h)) t = true).
        { apply existsb_exists. exists r. split; auto. apply N.eqb_eq. exact Hid. }
        congruence.
      * simpl. auto.
Qed.

(** The upsert changes no responsible flag; the row it may add has ['n']. *)
Lemma upsert_flags dbw clk h env t t1 :
  upsert dbw clk h env t = inr (tt, t1) ->
  map responsible t1
  = map responsible t ++ (if existsb (byId (ourUUID h)) t then [] else ["n"%string]).
Proof.
  rewrite upsert_unfold.
  destruct (sqlErr dbw SelectById); [discriminate|].
  destruct (existsb (byId (ourUUID h)) t).
  - destruct (sqlErr dbw UpdateHeartbeat); [discriminate|].
    intros H. injection H as <-.
    rewrite map_map, app_nil_r. apply map_ext.
    intros r. destruct (byId (ourUUID h) r); reflexivity.
  - destruct (sqlErr dbw InsertInstance); [discriminate|].
    intros H. injection H as <-. rewrite map_app. reflexivity.
Qed.

Lemma decideTakeover_unfold dbw clk h env their t1 :
  decideTakeover dbw clk h env their t1 =
  match sqlErr dbw SelectResponsible with
  | Some e => inl e
  | None =>
      match filter (byEnvResponsible (ID env) "y") t1 with
      | r0 :: _ =>
          if (id r0 =? ourUUID h)%N then inr ((true, id r0), t1)
          else if 10 <=? sub64 (Unix (nowFetch clk)) (heartbeat r0) then
            match sqlErr dbw ResetEnvironment with
            | Some e => inl e
            | None =>
                match sqlErr dbw ClaimFromStale with
                | Some e => inl e
                | None => inr ((true, id r0), claimOurs (ourUUID h) (resetEnv (ID env) t1))
                end
            end
          else inr ((false, id r0), t1)
      | [] =>
          match sqlErr dbw ClaimFree with
          | Some e => inl e
          | None => inr ((true, their), claimOurs (ourUUID h) t1)
          end
      end
  end.
Proof.
  unfold decideTakeover, bind, SqlFetchAll, SqlUpdate, ret, claimOurs, resetEnv.
  destruct (sqlErr dbw SelectResponsible); [reflexivity|].
  destruct (filter _ t1) as [|r0 rest].
  - destruct (sqlErr dbw ClaimFree); reflexivity.
  - destruct (id r0 =? ourUUID h)%N; [reflexivity|].
    destruct (10 <=? _); [|reflexivity].
    destruct (sqlErr dbw ResetEnvironment); [reflexivity|].
    destruct (sqlErr dbw ClaimFromStale); reflexivity.
Qed.

Lemma claimOurs_spec u t r :
  In r (claimOurs u t) ->
  (id r = u -> responsible r = "y"%string)
  /\ (id r <> u -> In r t).
Proof.
  unfold claimOurs. intros Hin. apply in_map_iff in Hin.
  destruct Hin as (x & Hx & Hin). unfold byId in Hx.
  destruct (N.eqb_spec (id x) u); subst r; simpl; split; auto; congruence.
Qed.

Lemma claimOurs_keeps u t r :
  In r t -> id r = u -> exists r', In r' (claimOurs u t) /\ id r' = u.
Proof.
  intros Hin Hid. exists (setResponsible "y" r). split; [|exact Hid].
  unfold claimOurs. apply in_map_iff. exists r. split; auto.
  unfold byId. rewrite Hid, N.eqb_refl. reflexivity.
Qed.

Lemma resetEnv_spec e t r :
  In r (resetEnv e t) ->
  (environment_id r = e -> responsible r = "n"%string)
  /\ exists x, In x t /\ id x = id r.
Proof.
  unfold resetEnv. intros Hin. apply in_map_iff in Hin.
  destruct Hin as (x & Hx & Hin). unfold byEnv in Hx.
  destruct (String.eqb_spec (environment_id x) e); subst r; simpl; split; eauto; congruence.
Qed.

(** C2.  The decision of an election (actions [tryTakeover] and
    [doTakeover]), taken on the table [t1] that the upsert leaves, where
    the responsible row is the first row of the environment marked ['y'].
    [justTakenOver] is true exactly when (a) there is no such row, or (b)
    it is ours, or (c) its heartbeat is ten seconds old or more.  In case
    (a), and in case (c) when the row is another's, our row ends marked
    ['y'], and in the latter every other row of the environment ends
    marked ['n']; a responsible row of ours is case (b) whatever its age,
    and the election writes nothing more.  Otherwise a fresh peer holds:
    [justTakenOver] is false, the election writes nothing more, and the
    transaction has changed no responsible flag.  When the two clock
    readings of the transaction are less than ten seconds apart, a
    responsible row that is ten seconds old is never ours.  Without
    faults the election returns a result.  Ages are counted on [int64],
    and are the plain difference whenever it fits. *)
Theorem election_decision dbw clk h env their t t1 :
  upsert dbw clk h env t = inr (tt, t1) ->
  let incumbents := filter (byEnvResponsible (ID env) "y") t1 in
  let none := incumbents = [] in
  let ours := exists r0 rest, incumbents = r0 :: rest /\ id r0 = ourUUID h in
  let old := exists r0 rest, incumbents = r0 :: rest
               /\ 10 <= sub64 (Unix (nowFetch clk)) (heartbeat r0) in
  let stale := exists r0 rest, incumbents = r0 :: rest
                 /\ id r0 <> ourUUID h
                 /\ 10 <= sub64 (Unix (nowFetch clk)) (heartbeat r0) in
  match election dbw clk h env their t with
  | inl e => exists s, sqlErr dbw s = Some e
  | inr ((justTakenOver, _), t2) =>
      (justTakenOver = true <-> none \/ ours \/ old)
      /\ (none \/ stale ->
          (exists r, In r t2 /\ id r = ourUUID h)
          /\ forall r, In r t2 -> id r = ourUUID h -> responsible r = "y"%string)
      /\ (stale ->
          forall r, In r t2 -> environment_id r = ID env -> id r <> ourUUID h ->
                    responsible r = "n"%string)
      /\ (ours -> t2 = t1)
      /\ (justTakenOver = false ->
          t2 = t1
          /\ map responsible t2
             = map responsible t
               ++ (if existsb (byId (ourUUID h)) t then [] else ["n"%string]))
  end
  /\ (sub64 (Unix (nowFetch clk)) (Unix (nowUpsert clk)) < 10 -> (old <-> stale))
  /\ (exists r, election noFaults clk h env their t = inr r)
  /\ (forall r0, - 2 ^ 63 <= Unix (nowFetch clk) - heartbeat r0 < 2 ^ 63 ->
        sub64 (Unix (nowFetch clk)) (heartbeat r0)
        = Unix (nowFetch clk) - heartbeat r0).
Proof.
  intros Hup incumbents none ours old stale.
  destruct (upsert_ours _ _ _ _ _ _ Hup) as [(rme & Hme & Hmeid) Hrows].
  split; [|split; [|split; [|intros r0 Hfit; apply sub64_exact; exact Hfit]]].
  - unfold election, bind. rewrite Hup.
    pose proof (upsert_flags _ _ _ _ _ _ Hup) as Hflags.
    rewrite decideTakeover_unfold. fold incumbents.
    destruct (sqlErr dbw SelectResponsible) as [e|] eqn:E1; [eauto|].
    destruct incumbents as [|r0 rest] eqn:Hinc.
    + (* (a) nobody is responsible *)
      destruct (sqlErr dbw ClaimFree) as [e|] eqn:E2; [eauto|].
      assert (Hnone : none) by reflexivity.
      split; [tauto|]. split; [|split; [|split]].
      * intros _. split.
        -- apply (claimOurs_keeps _ _ rme Hme Hmeid).
        -- intros r Hin Hid. apply claimOurs_spec in Hin. tauto.
      * intros (r1 & rest1 & Hc & _). discriminate.
      * intros (r1 & rest1 & Hc & _). discriminate.
      * discriminate.
    + destruct (N.eqb_spec (id r0) (ourUUID h)) as [Hid | Hid].
      * (* (b) we are *)
        assert (Hours : ours) by (exists r0, rest; auto).
        split; [tauto|]. split; [|split; [|split]].
        -- intros [Hn | (r1 & rest1 & Hc & Hid1 & _)]; [discriminate|].
           injection Hc as <- <-. contradiction.
        -- intros (r1 & rest1 & Hc & Hid1 & _).
           injection Hc as <- <-. contradiction.
        -- reflexivity.
        -- discriminate.
      * destruct (10 <=? sub64 (Unix (nowFetch clk)) (heartbeat r0)) eqn:Hst;
          [apply Z.leb_le in Hst | apply Z.leb_gt in Hst].
        -- (* (c) a peer is, with a stale heartbeat *)
           destruct (sqlErr dbw ResetEnvironment) as [e|] eqn:E2; [eauto|].
           destruct (sqlErr dbw ClaimFromStale) as [e|] eqn:E3; [eauto|].
           assert (Hold : old) by (exists r0, rest; auto).
           split; [tauto|]. split; [|split; [|split]].
           ++ intros _. split.
              ** assert (Hme' : exists r', In r' (resetEnv (ID env) t1) /\ id r' = ourUUID h).
                 { exists (if byEnv (ID env) rme then setResponsible "n" rme else rme).
                   split.
                   - unfold resetEnv. apply in_map_iff. exists rme. auto.
                   - destruct (byEnv (ID env) rme); exact Hmeid. }
                 destruct Hme' as (r' & Hin' & Hid').
                 apply (claimOurs_keeps _ _ r' Hin' Hid').
              ** intros r Hin Hrid. apply claimOurs_spec in Hin. tauto.
           ++ intros _ r Hin Henv Hrid.
              apply claimOurs_spec in Hin. destruct Hin as [_ Hin].
              specialize (Hin Hrid). apply resetEnv_spec in Hin. tauto.
           ++ intros (r1 & rest1 & Hc & Hid1). injection Hc as <- <-. contradiction.
           ++ discriminate.
        -- (* a fresh peer holds *)
           split.
           { split; [discriminate|].
             intros [Hn | [(r1 & rest1 & Hc & Hid1) | (r1 & rest1 & Hc & Hst1)]].
             - discriminate.
             - injection Hc as <- <-. contradiction.
             - injection Hc as <- <-. lia. }
           split; [|split; [|split]].
           ++ intros [Hn | (r1 & rest1 & Hc & _ & Hst1)]; [discriminate|].
              injection Hc as <- <-. lia.
           ++ intros (r1 & rest1 & Hc & _ & Hst1). injection Hc as <- <-. lia.
           ++ intros _. reflexivity.
           ++ intros _. split; [reflexivity | exact Hflags].
  - intros Hclk. split.
    + intros (r0 & rest & Hi & Hst). exists r0, rest.
      split; [exact Hi|]. split; [|exact Hst].
      intros Hid.
      assert (Hin : In r0 t1).
      { assert (Hin' : In r0 incumbents).
        { unfold incumbents in *. rewrite Hi. left. reflexivity. }
        apply filter_In in Hin'. tauto. }
      destruct (Hrows r0 Hin Hid) as [_ Hhb]. rewrite Hhb in Hst. lia.
    + intros (r0 & rest & Hi & _ & Hst). exists r0, rest. auto.
  - unfold election, bind. rewrite upsert_unfold. simpl.
    destruct (existsb (byId (ourUUID h)) t);
      rewrite decideTakeover_unfold; simpl;
      match goal with |- context [filter ?p ?l] => destruct (filter p l) as [|r0 rest] end;
      eauto;
      destruct (id r0 =? ourUUID h)%N; eauto;
      destruct (10 <=? _); eauto.
Qed.

(** ** After the commit *)

Lemma SecondsGe5_Sub_leb (t u : Time) :
  SecondsGe5 (Sub t u) = (5 * Second <=? t - u).
Proof.
  destruct (5 * Second <=? t - u) eqn:H.
  - apply SecondsGe5_Sub. apply Z.leb_le. exact H.
  - destruct (SecondsGe5 (Sub t u)) eqn:H'; [|reflexivity].
    apply SecondsGe5_Sub in H'. apply Z.leb_gt in H. lia.
Qed.

(** [takeover], case by case. *)
Lemma takeover_unfold dbw clk env h l t rds :
  takeover dbw clk env h l t rds =
  match SqlTransaction dbw (election dbw clk h env (theirUUID l)) t with
  | (inl e, t') => mkIter h l t' rds [] (Return e)
  | (inr (false, their), t') =>
      mkIter h (mkLocals (nextAction l) their) t' rds [logOtherResponsible their] Wait
  | (inr (true, their), t') =>
      let l' := mkLocals (nextAction l) their in
      match getResponsibility h with
      | stop => mkIter h l' t' rds [] Wait
      | _ =>
          match responsibleSince h with
          | None => mkIter (provisional h (nowConfirm clk)) l' t' rds [] Wait
          | Some since =>
              if 5 * Second <=? nowConfirm clk - since then
                match publishErr dbw with
                | Some e => mkIter (promoted h) l'
                                   t' (if publishReached dbw then rds ++ [wakeup h] else rds)
                                   (takingOverLog h their) (Return e)
                | None => mkIter (promoted h) l' t' (rds ++ [wakeup h])
                                 (takingOverLog h their) Wait
                end
              else mkIter h l' t' rds [] Wait
          end
      end
  end.
Proof.
  unfold takeover.
  destruct (SqlTransaction dbw _ t) as [[e | [[|] their]] t']; try reflexivity.
  unfold confirm, takingOverLog, promoted, provisional, wakeup, setResponsibility,
    setResponsibleSince, getResponsibility.
  destruct h as [u m r [since|] k e];
    cbn [h_responsibility responsibleSince ourUUID icinga2MTime
         runningCriticalOperations lastCriticalOperationEnd fst];
    destruct r; cbn [responsibility_eqb negb andb]; try reflexivity;
    (rewrite SecondsGe5_Sub_leb;
     destruct (5 * Second <=? nowConfirm clk - since); [|reflexivity];
     destruct (publishErr dbw); rewrite ?app_nil_r; reflexivity).
Qed.

(** [cease], case by case. *)
Lemma cease_unfold dbw clk env h l t rds :
  cease dbw clk env h l t rds =
  match SqlTransaction dbw (release dbw clk h env) t with
  | (inl e, t') => mkIter h l t' rds [] (Return e)
  | (inr _, t') =>
      mkIter (mkHA (ourUUID h) (icinga2MTime h) notReadyForTakeover None
                   (runningCriticalOperations h) (lastCriticalOperationEnd h))
             l t' rds [logCeasing] Wait
  end.
Proof. reflexivity. Qed.

(** The four ways through an iteration. *)
Lemma iteration_cases dbw clk env h l t rds :
  let it := iteration dbw clk env h l t rds in
  (exists r lg, it = mkIter (fst (setResponsibility h r)) l t rds lg Continue
                /\ r <> TakeoverSync /\ r <> TakeoverNoSync
                /\ (lg = [logNotRunning] \/ lg = [logRunningAgain]))
  \/ (getResponsibility h = notReadyForTakeover
      /\ it = mkIter h (mkLocals noAction (theirUUID l)) t rds [] Wait)
  \/ (exists a, (a = tryTakeover \/ a = doTakeover)
        /\ (getResponsibility h = stop \/ icinga2IsAlive h (nowDecide clk) = true)
        /\ it = takeover dbw clk env h (mkLocals a (theirUUID l)) t rds)
  \/ (getResponsibility h = stop /\ drained h (nowDecide clk) = true
      /\ it = cease dbw clk env h (mkLocals ceaseOperation (theirUUID l)) t rds).
Proof.
  intros it. subst it. unfold iteration, chooseAction, drained.
  destruct (getResponsibility h) eqn:Hr.
  - destruct (icinga2IsAlive h (nowDecide clk)) eqn:Ha; cbn [negb].
    + right; right; left. exists tryTakeover. cbn [app perform nextAction].
      destruct (takeover _ _ _ _ _ _ _); auto.
    + left. exists notReadyForTakeover. eexists. split; [reflexivity|].
      repeat split; auto; discriminate.
  - destruct (icinga2IsAlive h (nowDecide clk)) eqn:Ha; cbn [negb].
    + right; right; left. exists tryTakeover. cbn [app perform nextAction].
      destruct (takeover _ _ _ _ _ _ _); auto.
    + left. exists stop. eexists. split; [reflexivity|].
      repeat split; auto; discriminate.
  - destruct (icinga2IsAlive h (nowDecide clk)) eqn:Ha; cbn [negb].
    + right; right; left. exists doTakeover. cbn [app perform nextAction].
      destruct (takeover _ _ _ _ _ _ _); auto.
    + left. exists stop. eexists. split; [reflexivity|].
      repeat split; auto; discriminate.
  - destruct (_ && _) eqn:Hd.
    + right; right; right. cbn [app perform nextAction].
      destruct (cease _ _ _ _ _ _ _); auto.
    + right; right; left. exists doTakeover. cbn [app perform nextAction].
      destruct (takeover _ _ _ _ _ _ _); auto.
  - destruct (icinga2IsAlive h (nowDecide clk)) eqn:Ha.
    + left. exists readyForTakeover. eexists. split; [reflexivity|].
      repeat split; auto; discriminate.
    + right; left. auto.
Qed.

(** What an election does to the controller and to Redis: nothing, a first
    claim, or a promotion with its wakeup. *)
Lemma takeover_effect dbw clk env h l t rds :
  let it := takeover dbw clk env h l t rds in
  (ha it = h /\ redis it = rds /\ ~ In (logTakingOver (theirUUID (locals it))) (logs it)
   /\ forall their t',
        SqlTransaction dbw (election dbw clk h env (theirUUID l)) t
        = (inr (true, their), t') ->
        getResponsibility h <> stop ->
        exists since,
          responsibleSince h = Some since /\ nowConfirm clk - since < 5 * Second)
  \/ (exists their t',
        SqlTransaction dbw (election dbw clk h env (theirUUID l)) t
        = (inr (true, their), t')
        /\ getResponsibility h <> stop
        /\ responsibleSince h = None
        /\ it = mkIter (provisional h (nowConfirm clk))
                       (mkLocals (nextAction l) their) t' rds [] Wait)
  \/ (exists their t' since,
        SqlTransaction dbw (election dbw clk h env (theirUUID l)) t
        = (inr (true, their), t')
        /\ getResponsibility h <> stop
        /\ responsibleSince h = Some since
        /\ 5 * Second <= nowConfirm clk - since
        /\ ha it = promoted h
        /\ locals it = mkLocals (nextAction l) their
        /\ table it = t'
        /\ logs it = takingOverLog h their
        /\ ((publishErr dbw = None /\ redis it = rds ++ [wakeup h] /\ outcome it = Wait)
            \/ (exists e, publishErr dbw = Some e
                          /\ redis it = (if publishReached dbw then rds ++ [wakeup h]
                                         else rds)
                          /\ outcome it = Return e))).
Proof.
  intros it. subst it. rewrite takeover_unfold.
  destruct (SqlTransaction dbw _ t) as [[e | [[|] their]] t'] eqn:Htx.
  - left. cbn. repeat split; auto; intros; discriminate.
  - assert (Hgo : getResponsibility h <> stop ->
             match getResponsibility h with
             | stop => mkIter h (mkLocals (nextAction l) their) t' rds [] Wait
             | _ =>
                 match responsibleSince h with
                 | None => mkIter (provisional h (nowConfirm clk))
                                  (mkLocals (nextAction l) their) t' rds [] Wait
                 | Some since =>
                     if 5 * Second <=? nowConfirm clk - since then
                       match publishErr dbw with
                       | Some e => mkIter (promoted h) (mkLocals (nextAction l) their) t'
                                          (if publishReached dbw then rds ++ [wakeup h]
                                           else rds)
                                          (takingOverLog h their) (Return e)
                       | None => mkIter (promoted h) (mkLocals (nextAction l) their) t'
                                        (rds ++ [wakeup h]) (takingOverLog h their) Wait
                       end
                     else mkIter h (mkLocals (nextAction l) their) t' rds [] Wait
                 end
             end
             = match responsibleSince h with
               | None => mkIter (provisional h (nowConfirm clk))
                                (mkLocals (nextAction l) their) t' rds [] Wait
               | Some since =>
                   if 5 * Second <=? nowConfirm clk - since then
                     match publishErr dbw with
                     | Some e => mkIter (promoted h) (mkLocals (nextAction l) their) t'
                                        (if publishReached dbw then rds ++ [wakeup h]
                                         else rds)
                                        (takingOverLog h their) (Return e)
                     | None => mkIter (promoted h) (mkLocals (nextAction l) their) t'
                                      (rds ++ [wakeup h]) (takingOverLog h their) Wait
                     end
                   else mkIter h (mkLocals (nextAction l) their) t' rds [] Wait
               end).
    { destruct (getResponsibility h); congruence. }
    cbv zeta.
    destruct (responsibility_eqb (getResponsibility h) stop) eqn:Hst.
    + apply responsibility_eqb_eq in Hst. rewrite Hst.
      left. cbn. repeat split; auto; intros; congruence.
    + assert (Hns : getResponsibility h <> stop).
      { intros Hc. rewrite Hc in Hst. discriminate. }
      rewrite (Hgo Hns). clear Hgo.
      destruct (responsibleSince h) as [since|] eqn:Hs.
      * destruct (5 * Second <=? nowConfirm clk - since) eqn:Hw.
        -- apply Z.leb_le in Hw. right; right. exists their, t', since.
           destruct (publishErr dbw) as [e|] eqn:Hp; cbn.
           ++ repeat split; auto. right. eauto.
           ++ repeat split; auto.
        -- apply Z.leb_gt in Hw. left. cbn. repeat split; auto.
           intros their0 t0 _ _. exists since. auto.
      * right; left. exists their, t'. repeat split; auto.
  - left. cbn. repeat split; auto; try (intros; discriminate).
    intros [H | []]. discriminate.
Qed.

(** What an iteration does to the controller and to Redis. *)
Lemma iteration_effect dbw clk env h l t rds :
  let it := iteration dbw clk env h l t rds in
  (* no election: liveness transition, noAction or ceaseOperation *)
  (redis it = rds
   /\ ~ In (logTakingOver (theirUUID (locals it))) (logs it)
   /\ getResponsibility (ha it) <> TakeoverSync
   /\ getResponsibility (ha it) <> TakeoverNoSync
   /\ (responsibleSince (ha it) = responsibleSince h
       \/ (responsibleSince (ha it) = None
           /\ getResponsibility (ha it) = notReadyForTakeover)))
  \/ (exists a, (a = tryTakeover \/ a = doTakeover)
        /\ (getResponsibility h = stop \/ icinga2IsAlive h (nowDecide clk) = true)
        /\ it = takeover dbw clk env h (mkLocals a (theirUUID l)) t rds).
Proof.
  intros it.
  destruct (iteration_cases dbw clk env h l t rds)
    as [(r & lg & Hit & Hr1 & Hr2 & Hlg) | [(Hr & Hit) | [Hel | (Hr & Hd & Hit)]]];
    fold it in Hit || fold it in Hel.
  - left. rewrite Hit. cbn. repeat split; auto.
    destruct Hlg as [-> | ->]; intros [H | []]; discriminate.
  - left. rewrite Hit. cbn. rewrite Hr. repeat split; auto; discriminate.
  - right. exact Hel.
  - left. rewrite Hit, cease_unfold.
    destruct (SqlTransaction dbw _ t) as [[e | u] t']; cbn; rewrite ?Hr;
      repeat split; auto; try discriminate.
    intros [H | []]. discriminate.
Qed.

(** The confirmation window, iteration by iteration: entering
    [TakeoverSync], the first claim, and what becomes of
    [responsibleSince]. *)
Lemma confirmation_window_step dbw clk env h l t rds :
  let it := iteration dbw clk env h l t rds in
  (getResponsibility (ha it) = TakeoverSync ->
   getResponsibility h <> TakeoverSync ->
   exists since, responsibleSince h = Some since
                 /\ 5 * Second <= nowConfirm clk - since)
  /\ (responsibleSince h = None ->
      (responsibleSince (ha it) = None
       /\ (getResponsibility (ha it) = TakeoverSync -> getResponsibility h = TakeoverSync))
      \/ (responsibleSince (ha it) = Some (nowConfirm clk)
          /\ getResponsibility (ha it) = TakeoverNoSync
          /\ redis it = rds))
  /\ (forall their t',
        responsibleSince h = None ->
        getResponsibility h <> stop ->
        SqlTransaction dbw (election dbw clk h env (theirUUID l)) t
        = (inr (true, their), t') ->
        ha (takeover dbw clk env h l t rds)
        = mkHA (ourUUID h) (icinga2MTime h) TakeoverNoSync (Some (nowConfirm clk))
               (runningCriticalOperations h) (lastCriticalOperationEnd h))
  /\ (forall since,
        responsibleSince h = Some since ->
        responsibleSince (ha it) = Some since
        \/ (responsibleSince (ha it) = None
            /\ getResponsibility (ha it) = notReadyForTakeover)).
Proof.
  intros it.
  assert (Hit : let it := iteration dbw clk env h l t rds in
                (getResponsibility (ha it) <> TakeoverSync
                 /\ getResponsibility (ha it) <> TakeoverNoSync
                 /\ redis it = rds
                 /\ (responsibleSince (ha it) = responsibleSince h
                     \/ (responsibleSince (ha it) = None
                         /\ getResponsibility (ha it) = notReadyForTakeover)))
                \/ (ha it = h /\ redis it = rds)
                \/ (responsibleSince h = None /\ ha it = provisional h (nowConfirm clk)
                    /\ redis it = rds)
                \/ (exists since, responsibleSince h = Some since
                                  /\ 5 * Second <= nowConfirm clk - since
                                  /\ ha it = promoted h)).
  { destruct (iteration_effect dbw clk env h l t rds)
      as [(Hr & _ & H1 & H2 & H3) | (a & _ & _ & Hel)].
    - left. auto.
    - cbv zeta. rewrite Hel.
      destruct (takeover_effect dbw clk env h (mkLocals a (theirUUID l)) t rds)
        as [(Hh & Hr & _) | [(their & t' & _ & _ & Hs & Hk)
                            | (their & t' & since & _ & _ & Hs & Hw & Hh & _)]].
      + right; left. auto.
      + right; right; left. rewrite Hk. auto.
      + right; right; right. eauto. }
  fold it in Hit. cbv zeta in Hit.
  split; [|split; [|split]].
  - intros Hsync Hnot.
    destruct Hit as [(H1 & _) | [(Hh & _) | [(_ & Hh & _) | (since & Hs & Hw & _)]]].
    + contradiction.
    + rewrite Hh in Hsync. contradiction.
    + rewrite Hh in Hsync. discriminate.
    + eauto.
  - intros Hnone.
    destruct Hit as [(H1 & _ & _ & [H3 | [H3 _]])
                    | [(Hh & _) | [(_ & Hh & Hr) | (since & Hs & _)]]].
    + left. split; [congruence | intros; contradiction].
    + left. split; [assumption | intros; contradiction].
    + left. rewrite Hh. auto.
    + right. rewrite Hh. auto.
    + congruence.
  - intros their t' Hnone Hns Htx.
    destruct (takeover_effect dbw clk env h l t rds)
      as [(_ & _ & _ & Hno) | [(their1 & t1 & _ & _ & _ & Hk)
                             | (their1 & t1 & since & _ & _ & Hs & _)]].
    + destruct (Hno their t' Htx Hns) as (since & Hs & _). congruence.
    + rewrite Hk. reflexivity.
    + congruence.
  - intros since Hs.
    destruct Hit as [(_ & _ & _ & [H3 | H3])
                    | [(Hh & _) | [(Hn & _) | (since1 & _ & _ & Hh)]]].
    + left. congruence.
    + right. exact H3.
    + left. rewrite Hh. exact Hs.
    + congruence.
    + left. rewrite Hh. exact Hs.
Qed.

(** ** The wakeup *)

Lemma chooseAction_alive h clk :
  icinga2IsAlive h (nowDecide clk) = true ->
  getResponsibility h = readyForTakeover \/ getResponsibility h = TakeoverNoSync
  \/ getResponsibility h = TakeoverSync ->
  exists a, (a = tryTakeover \/ a = doTakeover)
            /\ chooseAction h clk = (h, Some a, []).
Proof.
  intros Ha Hr. unfold chooseAction. rewrite Ha. cbn [negb].
  destruct Hr as [-> | [-> | ->]]; eauto.
Qed.

Lemma iteration_election dbw clk env h l t rds :
  icinga2IsAlive h (nowDecide clk) = true ->
  getResponsibility h = readyForTakeover \/ getResponsibility h = TakeoverNoSync
  \/ getResponsibility h = TakeoverSync ->
  exists a, (a = tryTakeover \/ a = doTakeover)
            /\ iteration dbw clk env h l t rds
               = takeover dbw clk env h (mkLocals a (theirUUID l)) t rds.
Proof.
  intros Ha Hr.
  destruct (chooseAction_alive h clk Ha Hr) as (a & Ha' & Hc).
  exists a. split; [exact Ha'|].
  rewrite (iteration_perform _ _ _ _ _ _ _ _ _ _ Hc). cbv zeta.
  unfold perform. cbn [nextAction app].
  destruct Ha' as [-> | ->]; destruct (takeover _ _ _ _ _ _ _); reflexivity.
Qed.

(** C5, the claim as it is written, fails: a replica that is already in
    [TakeoverSync], five seconds after its claim and still holding the row,
    publishes the wakeup again on its next election, without a promotion
    and without the log line. *)
Lemma wakeup_without_promotion :
  getResponsibility (mkHA 1%N 7 TakeoverSync (Some (2 * Second)) 0 0) = TakeoverSync
  /\ iteration noFaults (frozen (8 * Second)) (mkEnv "E" "production")
               (mkHA 1%N 7 TakeoverSync (Some (2 * Second)) 0 0)
               (mkLocals doTakeover 1%N) [mkRow 1%N "E" 7 "y"] []
     = mkIter (mkHA 1%N 7 TakeoverSync (Some (2 * Second)) 0 0)
              (mkLocals doTakeover 1%N) [mkRow 1%N "E" 8 "y"]
              [("icingadb:wakeup"%string, "00000000-0000-0000-0000-000000000001"%string)]
              [] Wait.
Proof. split; reflexivity. Qed.

(** C5, amended.  The wakeup, the textual form of our identifier on the
    channel [icingadb:wakeup], belongs to the iterations whose election
    commits with [justTakenOver] outside [stop] while [responsibleSince]
    is five seconds old or more.  Each of them assigns [TakeoverSync] and
    calls [Publish]: when the call returns no error the message is
    published, once, and the iteration goes to the [select]; when it
    returns an error the iteration returns that error, and the message has
    gone out or not.  Each of them logs "Taking over", once and with the
    identifier the election found, when the state was [TakeoverNoSync],
    and logs nothing otherwise: so the promotion publishes with the log
    line, and every renewal in [TakeoverSync] publishes again without it.
    No other iteration publishes anything, and none logs "Taking over". *)
Theorem wakeup_on_every_confirmed_election dbw clk env h l t rds :
  let it := iteration dbw clk env h l t rds in
  let msg := ("icingadb:wakeup"%string, UUID_String (ourUUID h)) in
  (forall their t',
     renews dbw clk env h l t their t' ->
     getResponsibility (ha it) = TakeoverSync
     /\ table it = t'
     /\ match publishErr dbw with
        | None => redis it = rds ++ [msg] /\ outcome it = Wait
        | Some e => outcome it = Return e
                    /\ redis it = (if publishReached dbw then rds ++ [msg] else rds)
        end
     /\ (getResponsibility h = TakeoverNoSync -> logs it = [logTakingOver their])
     /\ (getResponsibility h <> TakeoverNoSync -> logs it = []))
  /\ (redis it <> rds -> exists their t', renews dbw clk env h l t their t')
  /\ (forall their, In (logTakingOver their) (logs it) ->
        getResponsibility h = TakeoverNoSync
        /\ exists t', renews dbw clk env h l t their t')
  /\ (redis it = rds \/ redis it = rds ++ [msg]).
Proof.
  intros it msg.
  assert (Hquiet : getResponsibility h = notReadyForTakeover ->
            redis it = rds /\ forall their, ~ In (logTakingOver their) (logs it)).
  { intros Hr. subst it. unfold iteration, chooseAction. rewrite Hr.
    destruct (icinga2IsAlive h (nowDecide clk)); cbn; split; auto.
    intros their [H | []]. discriminate. }
  assert (Hback : forall a,
            (getResponsibility h = stop \/ icinga2IsAlive h (nowDecide clk) = true) ->
            it = takeover dbw clk env h (mkLocals a (theirUUID l)) t rds ->
            (redis it = rds /\ forall their, ~ In (logTakingOver their) (logs it))
            \/ exists their t',
                 renews dbw clk env h l t their t'
                 /\ logs it = takingOverLog h their
                 /\ (redis it = rds \/ redis it = rds ++ [msg])).
  { intros a Hgo Hel.
    destruct (responsibility_eqb (getResponsibility h) notReadyForTakeover) eqn:Hnr.
    { apply responsibility_eqb_eq in Hnr. left. apply Hquiet. exact Hnr. }
    assert (Hnn : getResponsibility h <> notReadyForTakeover).
    { intros Hc. rewrite Hc in Hnr. discriminate. }
    rewrite Hel, takeover_unfold.
    destruct (SqlTransaction dbw _ t) as [[e | [[|] their]] t'] eqn:Htx.
    - left. cbn. split; auto.
    - cbv zeta. cbn [theirUUID] in Htx.
      destruct (responsibility_eqb (getResponsibility h) stop) eqn:Hst.
      { apply responsibility_eqb_eq in Hst. rewrite Hst. left. cbn. split; auto. }
      assert (Hns : getResponsibility h <> stop).
      { intros Hc. rewrite Hc in Hst. discriminate. }
      assert (Hal : icinga2IsAlive h (nowDecide clk) = true) by tauto.
      assert (Hcase :
                match responsibleSince h with
                | None => True
                | Some since =>
                    5 * Second <= nowConfirm clk - since ->
                    renews dbw clk env h l t their t'
                end).
      { destruct (responsibleSince h) as [since|] eqn:Hs; [|exact I].
        intros Hw. unfold renews. repeat split; eauto. }
      destruct (getResponsibility h) eqn:Hg; try congruence;
        (destruct (responsibleSince h) as [since|];
         [|left; cbn; split; auto];
         destruct (Z.leb_spec (5 * Second) (nowConfirm clk - since)) as [Hw | Hw];
         [|left; cbn; split; auto];
         right; exists their, t'; split; [exact (Hcase Hw)|];
         destruct (publishErr dbw); [destruct (publishReached dbw)|];
         cbn; unfold takingOverLog; rewrite ?Hg; auto).
    - left. cbn. split; auto. intros their0 [H | []]. discriminate. }
  assert (Hall : (redis it = rds /\ forall their, ~ In (logTakingOver their) (logs it))
                 \/ exists their t',
                      renews dbw clk env h l t their t'
                      /\ logs it = takingOverLog h their
                      /\ (redis it = rds \/ redis it = rds ++ [msg])).
  { destruct (iteration_cases dbw clk env h l t rds)
      as [(r & lg & Hit & _ & _ & Hlg) | [(_ & Hit) | [(a & _ & Hgo & Hel)
                                                     | (_ & _ & Hit)]]];
      fold it in Hit || fold it in Hel.
    - left. rewrite Hit. cbn. split; [reflexivity|].
      destruct Hlg as [-> | ->]; intros their [H | []]; discriminate.
    - left. rewrite Hit. cbn. auto.
    - apply (Hback a Hgo Hel).
    - left. rewrite Hit, cease_unfold.
      destruct (SqlTransaction dbw _ t) as [[e | u] t']; cbn; [auto|].
      split; [reflexivity|]. intros their [H | []]. discriminate. }
  split; [|split; [|split]].
  - intros their t' (Hal & Hns & Hnn & Htx & since & Hs & Hw).
    assert (Hr : getResponsibility h = readyForTakeover
                 \/ getResponsibility h = TakeoverNoSync
                 \/ getResponsibility h = TakeoverSync).
    { destruct (getResponsibility h); auto; congruence. }
    destruct (iteration_election dbw clk env h l t rds Hal Hr) as (a & _ & Hel).
    fold it in Hel. rewrite Hel, takeover_unfold. cbn [theirUUID]. rewrite Htx.
    cbv zeta. rewrite Hs.
    apply Z.leb_le in Hw. 
    unfold takingOverLog.
    destruct Hr as [Hg | [Hg | Hg]]; rewrite Hg, ?Hw;
      (destruct (publishErr dbw); cbn;
       (split; [reflexivity|]; split; [reflexivity|];
        split; [split; reflexivity|];
        split; [intros; congruence | intros; congruence])).
  - intros Hpub. destruct Hall as [[Hr _] | (their & t' & Hre & _)]; [contradiction|].
    eauto.
  - intros their Hlog.
    destruct Hall as [[_ Hno] | (their1 & t' & Hre & Hlg & _)].
    + destruct (Hno their Hlog).
    + rewrite Hlg in Hlog. unfold takingOverLog in Hlog.
      destruct (getResponsibility h) eqn:Hg; try (destruct Hlog; fail).
      destruct Hlog as [H | []]. injection H as <-.
      split; [reflexivity|]. exists t'. exact Hre.
  - destruct Hall as [[Hr _] | (their & t' & _ & _ & Hr)]; auto.
Qed.

(** ** Ceasing and claiming again *)




(** A stale peer holds the environment; we take it over. *)
Lemma election_decision_witness :
  upsert noFaults (frozen (120 * Second)) (startHA 2%N (120 * Second))
         (mkEnv "E" "production") [mkRow 1%N "E" 100 "y"]
  = inr (tt, [mkRow 1%N "E" 100 "y"; mkRow 2%N "E" 120 "n"])
  /\ exists r, election noFaults (frozen (120 * Second)) (startHA 2%N (120 * Second))
                        (mkEnv "E" "production") 0%N [mkRow 1%N "E" 100 "y"] = inr r.
Proof.
  split; [reflexivity|].
  apply (election_decision noFaults (frozen (120 * Second)) (startHA 2%N (120 * Second))
           (mkEnv "E" "production") 0%N [mkRow 1%N "E" 100 "y"]
           [mkRow 1%N "E" 100 "y"; mkRow 2%N "E" 120 "n"]); reflexivity.
Defined.

(** Two critical operations run: the controller stays in [stop]. *)
Lemma stop_waits_for_drain_witness :
  getResponsibility (mkHA 1%N 49 stop (Some (40 * Second)) 2 0) = stop
  /\ ha (iteration noFaults (frozen (65 * Second)) (mkEnv "E" "production")
                   (mkHA 1%N 49 stop (Some (40 * Second)) 2 0) startLocals
                   [mkRow 1%N "E" 64 "y"] [])
     = mkHA 1%N 49 stop (Some (40 * Second)) 2 0.
Proof.
  split; [reflexivity|].
  apply (stop_waits_for_drain noFaults (frozen (65 * Second)) (mkEnv "E" "production")
           (mkHA 1%N 49 stop (Some (40 * Second)) 2 0) startLocals
           [mkRow 1%N "E" 64 "y"] [] eq_refl).
  left. discriminate.
Defined.


(** ** Two replicas: what the writes of an election do to the registry *)

Lemma upsertTable_in u e hb t x :
  In x (upsertTable u e hb t) ->
  (id x <> u /\ In x t)
  \/ (id x = u /\ environment_id x = e /\ heartbeat x = hb
      /\ ((exists x0, In x0 t /\ id x0 = u /\ responsible x = responsible x0)
          \/ ((forall x0, In x0 t -> id x0 <> u) /\ responsible x = "n"%string))).
Proof.
  unfold upsertTable. destruct (existsb (byId u) t) eqn:Hex.
  - intros Hin. apply in_map_iff in Hin. destruct Hin as (x0 & Hx & Hin).
    unfold byId in Hx. destruct (N.eqb_spec (id x0) u) as [Hid | Hid]; subst x.
    + right. cbn. repeat split; auto. left. exists x0. auto.
    + left. auto.
  - intros Hin. apply in_app_or in Hin. destruct Hin as [Hin | [<- | []]].
    + left. split; [|exact Hin]. intros Hid.
      assert (Hc : existsb (byId u) t = true).
      { apply existsb_exists. exists x. split; auto. apply N.eqb_eq. exact Hid. }
      congruence.
    + right. cbn. repeat split; auto. right. split; [|reflexivity].
      intros x0 Hin Hid.
      assert (Hc : existsb (byId u) t = true).
      { apply existsb_exists. exists x0. split; auto. apply N.eqb_eq. exact Hid. }
      congruence.
Qed.


Lemma upsertTable_kept u e hb t x0 :
  In x0 t -> id x0 = u -> In (setEnvHeartbeat e hb x0) (upsertTable u e hb t).
Proof.
  intros Hin Hid. unfold upsertTable.
  assert (Hex : existsb (byId u) t = true).
  { apply existsb_exists. exists x0. split; auto. apply N.eqb_eq. exact Hid. }
  rewrite Hex. apply in_map_iff. exists x0. split; [|exact Hin].
  unfold byId. rewrite Hid, N.eqb_refl. reflexivity.
Qed.

Lemma upsertTable_self u e hb t :
  exists x, In x (upsertTable u e hb t) /\ id x = u.
Proof.
  destruct (existsb (byId u) t) eqn:Hex.
  - apply existsb_exists in Hex. destruct Hex as (x0 & Hin & Hid).
    apply N.eqb_eq in Hid.
    exists (setEnvHeartbeat e hb x0). split; [|exact Hid].
    apply upsertTable_kept; assumption.
  - exists (mkRow u e hb "n"). split; [|reflexivity].
    unfold upsertTable. rewrite Hex. apply in_or_app. right. left. reflexivity.
Qed.

Lemma claimOurs_in u t x :
  In x (claimOurs u t) ->
  (id x <> u /\ In x t)
  \/ (id x = u /\ responsible x = "y"%string
      /\ exists x0, In x0 t /\ id x0 = u
                    /\ environment_id x = environment_id x0
                    /\ heartbeat x = heartbeat x0).
Proof.
  unfold claimOurs. intros Hin. apply in_map_iff in Hin.
  destruct Hin as (x0 & Hx & Hin). unfold byId in Hx.
  destruct (N.eqb_spec (id x0) u) as [Hid | Hid]; subst x.
  - right. cbn. repeat split; auto. exists x0. auto.
  - left. auto.
Qed.

Lemma claimOurs_other u t x :
  In x t -> id x <> u -> In x (claimOurs u t).
Proof.
  intros Hin Hid. unfold claimOurs. apply in_map_iff. exists x. split; [|exact Hin].
  unfold byId. destruct (N.eqb_spec (id x) u); [contradiction | reflexivity].
Qed.

Lemma resetEnv_in e t x :
  In x (resetEnv e t) ->
  exists x0, In x0 t /\ id x = id x0
             /\ environment_id x = environment_id x0
             /\ heartbeat x = heartbeat x0
             /\ (environment_id x0 = e -> responsible x = "n"%string)
             /\ (environment_id x0 <> e -> x = x0).
Proof.
  unfold resetEnv. intros Hin. apply in_map_iff in Hin.
  destruct Hin as (x0 & Hx & Hin). exists x0. unfold byEnv in Hx.
  destruct (String.eqb_spec (environment_id x0) e) as [He | He]; subst x; cbn;
    repeat split; auto; intros; congruence.
Qed.

Lemma resetEnv_image e t x0 :
  In x0 t -> exists x, In x (resetEnv e t) /\ id x = id x0.
Proof.
  intros Hin. exists (if byEnv e x0 then setResponsible "n" x0 else x0). split.
  - unfold resetEnv. apply in_map_iff. exists x0. auto.
  - destruct (byEnv e x0); reflexivity.
Qed.




(** ** Two replicas: what an election keeps of the registry's story *)

Lemma standsBy_not_holds u e t : standsBy u t -> ~ holds u e t.
Proof.
  intros Hs ((x & Hin & Hid) & Hy & _).
  specialize (Hs x Hin Hid). specialize (Hy x Hin Hid). congruence.
Qed.





Lemma owns_upsert_self u e hb t : owns u e hb (upsertTable u e hb t).
Proof.
  intros x Hin Hid.
  destruct (upsertTable_in _ _ _ _ _ Hin) as [[Hn _] | (_ & He & Hh & _)]; auto.
  contradiction.
Qed.







Lemma owns_claim u u' e hb t :
  owns u' e hb t -> owns u' e hb (claimOurs u t).
Proof.
  intros Ho x Hin Hid.
  destruct (claimOurs_in _ _ _ Hin)
    as [[_ Hin1] | (Hid' & _ & x0 & Hin0 & Hid0 & -> & ->)].
  - apply Ho; assumption.
  - apply Ho; congruence.
Qed.

Lemma owns_reset u e e' hb t :
  owns u e' hb t -> owns u e' hb (resetEnv e t).
Proof.
  intros Ho x Hin Hid.
  destruct (resetEnv_in _ _ _ Hin) as (x1 & Hin1 & Hid1 & -> & -> & _).
  apply Ho; congruence.
Qed.







(** ** The scenarios of the design document, run on the model *)

(** Cold start, alone: the claim at the second second, nothing at the
    sixth, the promotion and the wakeup at the seventh. *)
Example cold_start_solo :
  let first := iteration noFaults (frozen (2 * Second)) (mkEnv "E" "production")
                         (startHA 1%N (1 * Second)) startLocals [] [] in
  let sixth := again noFaults (frozen (6 * Second)) (mkEnv "E" "production") first in
  let seventh := again noFaults (frozen (7 * Second)) (mkEnv "E" "production") sixth in
  (getResponsibility (ha first), responsibleSince (ha first), table first, redis first)
  = (TakeoverNoSync, Some (2 * Second), [mkRow 1%N "E" 2 "y"], [])
  /\ (getResponsibility (ha sixth), redis sixth) = (TakeoverNoSync, [])
  /\ (getResponsibility (ha seventh), redis seventh, logs seventh)
     = (TakeoverSync,
        [("icingadb:wakeup"%string, "00000000-0000-0000-0000-000000000001"%string)],
        [logTakingOver 1%N]).
Proof. repeat split. Qed.

(** Takeover from an incumbent whose heartbeat is twenty seconds old. *)
Example takeover_from_stale_incumbent :
  let claim := iteration noFaults (frozen (120 * Second)) (mkEnv "E" "production")
                         (startHA 2%N (120 * Second)) startLocals
                         [mkRow 1%N "E" 100 "y"] [] in
  (getResponsibility (ha claim), table claim, outcome claim)
  = (TakeoverNoSync, [mkRow 1%N "E" 100 "n"; mkRow 2%N "E" 120 "y"], Wait).
Proof. reflexivity. Qed.

(** A fresh peer holds the environment: we add our row and stand by. *)
Example fresh_peer_no_takeover :
  iteration noFaults (frozen (50 * Second)) (mkEnv "E" "production")
            (startHA 2%N (50 * Second)) startLocals [mkRow 1%N "E" 49 "y"] []
  = mkIter (startHA 2%N (50 * Second)) (mkLocals tryTakeover 1%N)
           [mkRow 1%N "E" 49 "y"; mkRow 2%N "E" 50 "n"] []
           [logOtherResponsible 1%N] Wait.
Proof. reflexivity. Qed.

(** Graceful demotion: the upstream was last seen at the forty-ninth
    second and two critical operations run.  The controller stops; it
    keeps the row while they run and for five seconds after the last one
    has ended, at the sixty-eighth second; at the seventy-third it releases
    the row to the fresh peer. *)
Example graceful_demotion :
  let env := mkEnv "E" "production" in
  let stopping := iteration noFaults (frozen (65 * Second)) env
                            (mkHA 1%N 49 TakeoverSync (Some (10 * Second)) 2 0)
                            startLocals
                            [mkRow 1%N "E" 64 "y"; mkRow 2%N "E" 64 "n"] [] in
  let busy := again noFaults (frozen (65 * Second)) env stopping in
  let settling := iteration noFaults (frozen (72 * Second)) env
                            (mkHA 1%N 49 stop (Some (10 * Second)) 0 68) (locals busy)
                            [mkRow 1%N "E" 71 "y"; mkRow 2%N "E" 71 "n"] [] in
  let ceasing := iteration noFaults (frozen (73 * Second)) env
                           (mkHA 1%N 49 stop (Some (10 * Second)) 0 68) (locals busy)
                           [mkRow 1%N "E" 72 "y"; mkRow 2%N "E" 72 "n"] [] in
  (getResponsibility (ha stopping), outcome stopping) = (stop, Continue)
  /\ (getResponsibility (ha busy), nextAction (locals busy), table busy)
     = (stop, doTakeover, [mkRow 1%N "E" 65 "y"; mkRow 2%N "E" 64 "n"])
  /\ (getResponsibility (ha settling), nextAction (locals settling)) = (stop, doTakeover)
  /\ (getResponsibility (ha ceasing), responsibleSince (ha ceasing),
      nextAction (locals ceasing), table ceasing)
     = (notReadyForTakeover, None, ceaseOperation,
        [mkRow 1%N "E" 72 "n"; mkRow 2%N "E" 72 "n"]).
Proof. repeat split. Qed.


(** ** Runs of one controller: the confirmation window *)

Lemma after_snoc hs hp it : after (hs ++ [hp]) it = happen (after hs it) hp.
Proof. unfold after. rewrite fold_left_app. reflexivity. Qed.

Lemma claimedAt_snoc start hs hp since :
  claimedAt start hs since -> claimedAt start (hs ++ [hp]) since.
Proof.
  intros (hs1 & d & c & e & hs2 & -> & H).
  exists hs1, d, c, e, (hs2 ++ [hp]). split; [|exact H].
  rewrite <- app_assoc. reflexivity.
Qed.

Lemma confirmedAfter_snoc start hs hp since :
  confirmedAfter start hs since -> confirmedAfter start (hs ++ [hp]) since.
Proof.
  intros (hs1 & d1 & c1 & e1 & hs2 & d2 & c2 & e2 & hs3 & -> & H).
  exists hs1, d1, c1, e1, hs2, d2, c2, e2, (hs3 ++ [hp]). split; [|exact H].
  rewrite <- app_assoc. cbn. rewrite <- app_assoc. reflexivity.
Qed.

Lemma claimed_then_confirmed start hs dbw clk env since :
  claimedAt start hs since ->
  5 * Second <= nowConfirm clk - since ->
  confirmedAfter start (hs ++ [Iterates dbw clk env]) since.
Proof.
  intros (hs1 & d & c & e & hs2 & -> & Hc & Hn & Hs) Hw.
  exists hs1, d, c, e, hs2, dbw, clk, env, []. split; [|auto].
  rewrite <- app_assoc. reflexivity.
Qed.

(** Along every run from a controller that has not claimed yet:
    [responsibleSince], when set, is the clock reading of the iteration
    that claimed; and in [TakeoverSync] an iteration five seconds or more
    after that claim has happened. *)
Lemma claims_of_a_run start hs :
  responsibleSince (ha start) = None ->
  getResponsibility (ha start) <> TakeoverSync ->
  (forall s, responsibleSince (ha (after hs start)) = Some s -> claimedAt start hs s)
  /\ (getResponsibility (ha (after hs start)) = TakeoverSync ->
      exists s, responsibleSince (ha (after hs start)) = Some s
                /\ confirmedAfter start hs s).
Proof.
  intros Hnone Hnot.
  induction hs as [|hp hs IH] using rev_ind.
  - cbn. split; [intros s Hs; congruence | intros Hs; contradiction].
  - destruct IH as [IHc IHp]. rewrite after_snoc.
    set (it := after hs start) in *.
    assert (Hkeep : responsibleSince (ha (happen it hp)) = responsibleSince (ha it) ->
                    getResponsibility (ha (happen it hp)) = getResponsibility (ha it) ->
                    (forall s, responsibleSince (ha (happen it hp)) = Some s ->
                               claimedAt start (hs ++ [hp]) s)
                    /\ (getResponsibility (ha (happen it hp)) = TakeoverSync ->
                        exists s, responsibleSince (ha (happen it hp)) = Some s
                                  /\ confirmedAfter start (hs ++ [hp]) s)).
    { intros Hs Hr. rewrite Hs, Hr. split.
      - intros s H. apply claimedAt_snoc, IHc, H.
      - intros H. destruct (IHp H) as (s & H1 & H2).
        exists s. split; [exact H1 | apply confirmedAfter_snoc, H2]. }
    destruct hp as [dbw clk env | mtime running lastEnd t].
    + destruct (outcome it) eqn:Hout;
        try (apply Hkeep; cbn [happen]; rewrite Hout; reflexivity).
      all: cbn [happen] in *; rewrite Hout in *; unfold again in *.
      all: destruct (confirmation_window_step dbw clk env (ha it) (locals it) (table it)
                      (redis it)) as (Henter & Hfirst & _ & Hstay).
      all: set (it' := iteration dbw clk env (ha it) (locals it) (table it) (redis it)) in *.
      all: assert (HA : forall s, responsibleSince (ha it') = Some s ->
                                  claimedAt start (hs ++ [Iterates dbw clk env]) s).
      1, 3: intros s Hs;
        destruct (responsibleSince (ha it)) as [s0|] eqn:Hs0;
        [ destruct (Hstay s0 eq_refl) as [H | [H _]]; [|congruence];
          assert (s0 = s) by congruence; subst s0;
          apply claimedAt_snoc, IHc; reflexivity
        | destruct (Hfirst eq_refl) as [[H _] | (H & Hr & _)]; [congruence|];
          assert (s = nowConfirm clk) by congruence; subst s;
          exists hs, dbw, clk, env, []; repeat split; auto;
          rewrite after_snoc; fold it; cbn [happen]; rewrite Hout; exact Hr ].
      all: split; [exact HA|].
      all: intros Hsync.
      all: destruct (responsibility_eqb (getResponsibility (ha it)) TakeoverSync) eqn:Hwas.
      1, 3: apply responsibility_eqb_eq in Hwas;
        destruct (IHp Hwas) as (s & Hs & Hc);
        exists s; split; [|apply confirmedAfter_snoc, Hc];
        destruct (Hstay s Hs) as [H | [_ H]]; [exact H | congruence].
      all: assert (Hwas' : getResponsibility (ha it) <> TakeoverSync)
          by (intros Hc; rewrite Hc in Hwas; discriminate).
      all: destruct (Henter Hsync Hwas') as (s & Hs & Hw).
      all: exists s; split;
          [ destruct (Hstay s Hs) as [H | [_ H]]; [exact H | congruence]
          | apply claimed_then_confirmed; [apply IHc; exact Hs | exact Hw] ].
    + apply Hkeep; reflexivity.
Qed.

(** C3.  In every run of the controller (iterations of its loop, with the
    other goroutines and the other replicas writing in between), a
    controller in [TakeoverSync] has [responsibleSince] set to the clock
    reading of the iteration that claimed, with an iteration at least five
    seconds later after it.  Iteration by iteration: [TakeoverSync] is
    entered only when [responsibleSince] is set, five seconds or more
    before the clock reading; with [responsibleSince] unset an iteration
    leaves it unset or, on a successful claim, sets it to its clock reading
    and goes to [TakeoverNoSync], publishing nothing, which a successful
    claim outside [stop] does; and once set it stays until
    [ceaseOperation] zeroes it. *)
Theorem confirmation_window u now0 t0 hs dbw clk env h l t rds :
  let final := after hs (started u now0 t0) in
  let it := iteration dbw clk env h l t rds in
  (getResponsibility (ha final) = TakeoverSync ->
   exists since, responsibleSince (ha final) = Some since
                 /\ confirmedAfter (started u now0 t0) hs since)
  /\ (getResponsibility (ha it) = TakeoverSync ->
      getResponsibility h <> TakeoverSync ->
      exists since, responsibleSince h = Some since
                    /\ 5 * Second <= nowConfirm clk - since)
  /\ (responsibleSince h = None ->
      (responsibleSince (ha it) = None
       /\ (getResponsibility (ha it) = TakeoverSync -> getResponsibility h = TakeoverSync))
      \/ (responsibleSince (ha it) = Some (nowConfirm clk)
          /\ getResponsibility (ha it) = TakeoverNoSync
          /\ redis it = rds))
  /\ (forall their t',
        responsibleSince h = None ->
        getResponsibility h <> stop ->
        SqlTransaction dbw (election dbw clk h env (theirUUID l)) t
        = (inr (true, their), t') ->
        ha (takeover dbw clk env h l t rds)
        = mkHA (ourUUID h) (icinga2MTime h) TakeoverNoSync (Some (nowConfirm clk))
               (runningCriticalOperations h) (lastCriticalOperationEnd h))
  /\ (forall since,
        responsibleSince h = Some since ->
        responsibleSince (ha it) = Some since
        \/ (responsibleSince (ha it) = None
            /\ getResponsibility (ha it) = notReadyForTakeover)).
Proof.
  intros final it. split.
  - apply (claims_of_a_run (started u now0 t0) hs); [reflexivity | discriminate].
  - apply confirmation_window_step.
Qed.

(** The cold start, as a run: the claim at the second second, the
    promotion at the seventh. *)
Example cold_start_run :
  confirmedAfter (started 1%N (1 * Second) [])
                 [Iterates noFaults (frozen (2 * Second)) (mkEnv "E" "production");
                  Outside 6 0 0 [mkRow 1%N "E" 2 "y"];
                  Iterates noFaults (frozen (7 * Second)) (mkEnv "E" "production")]
                 (2 * Second).
Proof.
  exists [], noFaults, (frozen (2 * Second)), (mkEnv "E" "production"),
         [Outside 6 0 0 [mkRow 1%N "E" 2 "y"]],
         noFaults, (frozen (7 * Second)), (mkEnv "E" "production"), [].
  repeat split. discriminate.
Qed.

(** Refused demotion and the new claim: nobody else is in the registry, so
    the row stays marked ['y'] when the controller ceases; once the
    upstream is back the controller is ready again, finds itself the
    incumbent, and starts a new confirmation window. *)
Example refused_demotion_reclaims :
  let env := mkEnv "E" "production" in
  let ceasing := iteration noFaults (frozen (73 * Second)) env
                           (mkHA 1%N 49 stop (Some (10 * Second)) 0 68) startLocals
                           [mkRow 1%N "E" 72 "y"] [] in
  let silent := again noFaults (frozen (74 * Second)) env ceasing in
  let pinged := happen silent (Outside 80 0 68 (table silent)) in
  let waking := again noFaults (frozen (80 * Second)) env pinged in
  let claiming := again noFaults (frozen (80 * Second)) env waking in
  (getResponsibility (ha ceasing), responsibleSince (ha ceasing), table ceasing)
  = (notReadyForTakeover, None, [mkRow 1%N "E" 72 "y"])
  /\ (ha silent, nextAction (locals silent), table silent)
     = (ha ceasing, noAction, [mkRow 1%N "E" 72 "y"])
  /\ (getResponsibility (ha waking), outcome waking) = (readyForTakeover, Continue)
  /\ (getResponsibility (ha claiming), responsibleSince (ha claiming),
      table claiming, redis claiming)
     = (TakeoverNoSync, Some (80 * Second), [mkRow 1%N "E" 80 "y"], []).
Proof. repeat split. Qed.


(** * More of the package *)

(** ** The sweeper *)

(** The error of a sweep, if any: that of the [DELETE], else that of the
    commit. *)
Lemma cleanUpInstances_unfold dbw now t :
  cleanUpInstances dbw now t =
  match sqlErr dbw DeleteExpired with
  | Some e => (Some e, t)
  | None =>
      match sqlErr dbw Commit with
      | Some e => (Some e, t)
      | None => (None, filter (fun r => Unix now - heartbeat r <? 30) t)
      end
  end.
Proof.
  unfold cleanUpInstances, SqlTransaction, SqlDelete.
  destruct (sqlErr dbw DeleteExpired); [reflexivity|].
  destruct (sqlErr dbw Commit); [reflexivity|].
  f_equal. apply filter_ext. intros r. unfold expired.
  destruct (Z.leb_spec 30 (Unix now - heartbeat r));
    destruct (Z.ltb_spec (Unix now - heartbeat r) 30); try reflexivity; lia.
Qed.

(** X1.  A sweep that succeeds removes exactly the rows whose heartbeat is
    thirty seconds old or more and keeps the others as they are and in
    their order; a sweep that fails returns the error of its [DELETE] or of
    its commit and leaves the table as it was. *)
Theorem sweep_removes_only_expired dbw now t :
  match cleanUpInstances dbw now t with
  | (Some e, t') =>
      t' = t
      /\ (sqlErr dbw DeleteExpired = Some e
          \/ (sqlErr dbw DeleteExpired = None /\ sqlErr dbw Commit = Some e))
  | (None, t') =>
      sqlErr dbw DeleteExpired = None /\ sqlErr dbw Commit = None
      /\ (forall r, In r t' <-> In r t /\ Unix now - heartbeat r <= 29)
      /\ t' = filter (fun r => Unix now - heartbeat r <? 30) t
  end.
Proof.
  rewrite cleanUpInstances_unfold.
  destruct (sqlErr dbw DeleteExpired) as [e|]; [auto|].
  destruct (sqlErr dbw Commit) as [e|]; [auto|].
  repeat split; auto.
  - apply filter_In in H. tauto.
  - apply filter_In in H. destruct H as [_ H]. apply Z.ltb_lt in H. lia.
  - intros [Hin Hle]. apply filter_In. split; [exact Hin|]. apply Z.ltb_lt. lia.
Qed.

(** X2.  The periodic sweeper goes on after an error: whatever ticks have
    fired, it has sent on [chErr] the errors of the sweeps that failed, in
    their order, and the table has lost exactly the rows that were thirty
    seconds old or more at one of the sweeps that succeeded. *)
Theorem sweeper_goes_on ticks t :
  fst (cleanUpInstancesAsync ticks t)
  = flat_map (fun tick => match sweepErr (fst tick) with
                          | Some e => [e]
                          | None => []
                          end) ticks
  /\ forall x, In x (snd (cleanUpInstancesAsync ticks t))
               <-> In x t
                   /\ forall dbw now, In (dbw, now) ticks -> sweepErr dbw = None ->
                                      Unix now - heartbeat x <= 29.
Proof.
  revert t. induction ticks as [|[dbw now] rest IH]; intros t.
  - cbn. split; [reflexivity|]. intros x. split; [intros H; split; [exact H | intros ? ? []] | tauto].
  - cbn [cleanUpInstancesAsync flat_map fst].
    rewrite cleanUpInstances_unfold. unfold sweepErr at 1.
    destruct (sqlErr dbw DeleteExpired) as [e|] eqn:Hd.
    { destruct (IH t) as [IHe IHt].
      destruct (cleanUpInstancesAsync rest t) as [errs t''] eqn:Hrest. cbn in *.
      split; [rewrite IHe; reflexivity|].
      intros x. rewrite IHt. split.
      - intros [Hin Hall]. split; [exact Hin|].
        intros dbw' now' [Heq | Hin'] Hok; [|eauto].
        injection Heq as <- <-. unfold sweepErr in Hok. rewrite Hd in Hok. discriminate.
      - intros [Hin Hall]. split; [exact Hin|]. intros dbw' now' Hin' Hok. apply (Hall dbw' now'); [right; exact Hin' | exact Hok]. }
    destruct (sqlErr dbw Commit) as [e|] eqn:Hc.
    { destruct (IH t) as [IHe IHt].
      destruct (cleanUpInstancesAsync rest t) as [errs t''] eqn:Hrest. cbn in *.
      split; [rewrite IHe; reflexivity|].
      intros x. rewrite IHt. split.
      - intros [Hin Hall]. split; [exact Hin|].
        intros dbw' now' [Heq | Hin'] Hok; [|eauto].
        injection Heq as <- <-. unfold sweepErr in Hok. rewrite Hd, Hc in Hok. discriminate.
      - intros [Hin Hall]. split; [exact Hin|]. intros dbw' now' Hin' Hok. apply (Hall dbw' now'); [right; exact Hin' | exact Hok]. }
    destruct (IH (filter (fun r => Unix now - heartbeat r <? 30) t)) as [IHe IHt].
    split; [rewrite IHe; reflexivity|].
    intros x. rewrite IHt, filter_In, Z.ltb_lt. split.
    + intros [[Hin Hlt] Hall]. split; [exact Hin|].
      intros dbw' now' [Heq | Hin'] Hok; [|eauto].
      injection Heq as <- <-. lia.
    + intros [Hin Hall]. split; [split; [exact Hin|]|].
      * assert (H : Unix now - heartbeat x <= 29).
        { apply (Hall dbw now); [left; reflexivity|]. unfold sweepErr. rewrite Hd. exact Hc. }
        lia.
      * intros dbw' now' Hin' Hok. apply (Hall dbw' now'); [right; exact Hin' | exact Hok].
Qed.

(** ** What an iteration may write *)

(** A committed election has written the upsert and, when it took over
    from nobody or from a stale incumbent, the claim. *)
Lemma election_commits dbw clk h env their t r t' :
  SqlTransaction dbw (election dbw clk h env their) t = (inr r, t') ->
  let t1 := upsertTable (ourUUID h) (ID env) (Unix (nowUpsert clk)) t in
  t' = t1
  \/ (fst r = true /\ t' = claimOurs (ourUUID h) t1)
  \/ (fst r = true /\ t' = claimOurs (ourUUID h) (resetEnv (ID env) t1)).
Proof.
  unfold SqlTransaction, election, bind. rewrite upsert_unfold.
  destruct (sqlErr dbw SelectById); [discriminate|].
  fold (upsertTable (ourUUID h) (ID env) (Unix (nowUpsert clk)) t).
  assert (Hgo : forall t1,
            match decideTakeover dbw clk h env their t1 with
            | inl e => (inl e, t)
            | inr (a, t'0) =>
                match sqlErr dbw Commit with
                | Some e => (inl e, t)
                | None => (inr a, t'0)
                end
            end = (inr r, t') ->
            t' = t1 \/ (fst r = true /\ t' = claimOurs (ourUUID h) t1)
            \/ (fst r = true /\ t' = claimOurs (ourUUID h) (resetEnv (ID env) t1))).
  { intros t1. rewrite decideTakeover_unfold.
    destruct (sqlErr dbw SelectResponsible); [discriminate|].
    destruct (filter _ t1) as [|r0 rest].
    - destruct (sqlErr dbw ClaimFree); [discriminate|].
      destruct (sqlErr dbw Commit); [discriminate|].
      intros H. injection H as <- <-. right; left. auto.
    - destruct (id r0 =? ourUUID h)%N.
      + destruct (sqlErr dbw Commit); [discriminate|].
        intros H. injection H as <- <-. left. reflexivity.
      + destruct (10 <=? _).
        * destruct (sqlErr dbw ResetEnvironment); [discriminate|].
          destruct (sqlErr dbw ClaimFromStale); [discriminate|].
          destruct (sqlErr dbw Commit); [discriminate|].
          intros H. injection H as <- <-. right; right. auto.
        * destruct (sqlErr dbw Commit); [discriminate|].
          intros H. injection H as <- <-. left. reflexivity. }
  unfold upsertTable.
  destruct (existsb (byId (ourUUID h)) t).
  - destruct (sqlErr dbw UpdateHeartbeat); [discriminate|]. apply Hgo.
  - destruct (sqlErr dbw InsertInstance); [discriminate|]. apply Hgo.
Qed.

(** An election that fails has written nothing, and its error is that of
    one of its statements or of the commit. *)
Lemma election_fails dbw clk h env their t e t' :
  SqlTransaction dbw (election dbw clk h env their) t = (inl e, t') ->
  t' = t /\ exists s, sqlErr dbw s = Some e.
Proof.
  unfold SqlTransaction.
  destruct (election dbw clk h env their t) as [e0 | [a t0]] eqn:Hel.
  - intros H. injection H as <- <-. split; [reflexivity|].
    unfold election, bind in Hel. rewrite upsert_unfold in Hel.
    destruct (sqlErr dbw SelectById) eqn:E0; [injection Hel as <-; eauto|].
    assert (Hgo : forall t1, decideTakeover dbw clk h env their t1 = inl e0 ->
                             exists s, sqlErr dbw s = Some e0).
    { intros t1. rewrite decideTakeover_unfold.
      destruct (sqlErr dbw SelectResponsible) eqn:E1; [intros H; injection H as <-; eauto|].
      destruct (filter _ t1) as [|r0 rest].
      - destruct (sqlErr dbw ClaimFree) eqn:E2; [intros H; injection H as <-; eauto | discriminate].
      - destruct (id r0 =? ourUUID h)%N; [discriminate|].
        destruct (10 <=? _); [|discriminate].
        destruct (sqlErr dbw ResetEnvironment) eqn:E2; [intros H; injection H as <-; eauto|].
        destruct (sqlErr dbw ClaimFromStale) eqn:E3; [intros H; injection H as <-; eauto|].
        discriminate. }
    destruct (existsb (byId (ourUUID h)) t).
    + destruct (sqlErr dbw UpdateHeartbeat) eqn:E1; [injection Hel as <-; eauto|].
      apply (Hgo _ Hel).
    + destruct (sqlErr dbw InsertInstance) eqn:E1; [injection Hel as <-; eauto|].
      apply (Hgo _ Hel).
  - destruct (sqlErr dbw Commit) eqn:Ec; [|discriminate].
    intros H. injection H as <- <-. eauto.
Qed.

Lemma release_commits dbw clk h env t u t' :
  SqlTransaction dbw (release dbw clk h env) t = (inr u, t') ->
  t' = t \/ t' = releaseOurs (ourUUID h) t.
Proof.
  unfold SqlTransaction. rewrite release_unfold.
  destruct (sqlErr dbw SelectFreshOthers); [discriminate|].
  destruct (existsb _ t).
  - destruct (sqlErr dbw ReleaseOurs); [discriminate|].
    destruct (sqlErr dbw Commit); [discriminate|].
    intros H. injection H as _ <-. right. reflexivity.
  - destruct (sqlErr dbw Commit); [discriminate|].
    intros H. injection H as _ <-. left. reflexivity.
Qed.

Lemma release_fails dbw clk h env t e t' :
  SqlTransaction dbw (release dbw clk h env) t = (inl e, t') ->
  t' = t /\ exists s, sqlErr dbw s = Some e.
Proof.
  unfold SqlTransaction. rewrite release_unfold.
  destruct (sqlErr dbw SelectFreshOthers) eqn:E0;
    [intros H; injection H as <- <-; eauto|].
  destruct (existsb _ t).
  - destruct (sqlErr dbw ReleaseOurs) eqn:E1; [intros H; injection H as <- <-; eauto|].
    destruct (sqlErr dbw Commit) eqn:E2; [intros H; injection H as <- <-; eauto | discriminate].
  - destruct (sqlErr dbw Commit) eqn:E2; [intros H; injection H as <- <-; eauto | discriminate].
Qed.

Lemma takeover_table dbw clk env h l t rds :
  table (takeover dbw clk env h l t rds)
  = snd (SqlTransaction dbw (election dbw clk h env (theirUUID l)) t).
Proof.
  rewrite takeover_unfold.
  destruct (SqlTransaction dbw _ t) as [[e | [[|] their]] t']; try reflexivity.
  cbv zeta.
  destruct (getResponsibility h); try reflexivity;
    (destruct (responsibleSince h) as [since|]; [|reflexivity];
     destruct (5 * Second <=? nowConfirm clk - since); [|reflexivity];
     destruct (publishErr dbw); reflexivity).
Qed.

(** The table an iteration leaves is the one it found, or the upsert with
    or without a claim on top, or the release. *)
Lemma iteration_table dbw clk env h l t rds :
  let it := iteration dbw clk env h l t rds in
  let t1 := upsertTable (ourUUID h) (ID env) (Unix (nowUpsert clk)) t in
  table it = t
  \/ table it = t1
  \/ table it = claimOurs (ourUUID h) t1
  \/ table it = claimOurs (ourUUID h) (resetEnv (ID env) t1)
  \/ table it = releaseOurs (ourUUID h) t.
Proof.
  intros it t1.
  destruct (iteration_cases dbw clk env h l t rds)
    as [(r & lg & Hit & _) | [(_ & Hit) | [(a & _ & _ & Hit) | (_ & _ & Hit)]]];
    fold it in Hit; rewrite Hit.
  - left. reflexivity.
  - left. reflexivity.
  - rewrite takeover_table. cbn [theirUUID].
    destruct (SqlTransaction dbw (election dbw clk h env (theirUUID l)) t)
      as [[e | r] t'] eqn:Htx.
    + left. apply (election_fails _ _ _ _ _ _ _ _ Htx).
    + destruct (election_commits _ _ _ _ _ _ _ _ Htx) as [H | [[_ H] | [_ H]]];
        cbn [snd]; rewrite H; auto.
  - rewrite cease_unfold.
    destruct (SqlTransaction dbw (release dbw clk h env) t) as [[e | u] t'] eqn:Htx.
    + left. apply (release_fails _ _ _ _ _ _ _ Htx).
    + destruct (release_commits _ _ _ _ _ _ _ Htx) as [H | H]; cbn [table]; rewrite H; auto.
Qed.

Lemma map_id_if (p : Row -> bool) (v : string) (t : Table) :
  map id (map (fun r => if p r then setResponsible v r else r) t) = map id t.
Proof.
  rewrite map_map. apply map_ext. intros r. destruct (p r); reflexivity.
Qed.

Lemma map_id_upsertTable u e hb t :
  map id (upsertTable u e hb t) = map id t
  \/ (~ In u (map id t) /\ map id (upsertTable u e hb t) = map id t ++ [u]).
Proof.
  unfold upsertTable. destruct (existsb (byId u) t) eqn:Hex.
  - left. rewrite map_map. apply map_ext. intros r. destruct (byId u r); reflexivity.
  - right. split; [|rewrite map_app; reflexivity].
    intros Hin. apply in_map_iff in Hin. destruct Hin as (x & Hid & Hin).
    assert (Hc : existsb (byId u) t = true).
    { apply existsb_exists. exists x. split; [exact Hin|]. apply N.eqb_eq. exact Hid. }
    congruence.
Qed.

(** X3.  An iteration never deletes a row and never moves one: the
    identifiers in the table stay as they are, in their order, with at most
    ours added at the end, and only when it was not there.  So the loop
    keeps the primary key: identifiers that were distinct stay distinct. *)
Theorem iteration_keeps_ids dbw clk env h l t rds :
  let it := iteration dbw clk env h l t rds in
  (map id (table it) = map id t
   \/ (~ In (ourUUID h) (map id t)
       /\ map id (table it) = map id t ++ [ourUUID h]))
  /\ (NoDup (map id t) -> NoDup (map id (table it))).
Proof.
  intros it.
  assert (H : map id (table it) = map id t
              \/ (~ In (ourUUID h) (map id t)
                  /\ map id (table it) = map id t ++ [ourUUID h])).
  { destruct (iteration_table dbw clk env h l t rds) as [H | [H | [H | [H | H]]]];
      fold it in H; rewrite H; unfold claimOurs, resetEnv, releaseOurs;
      rewrite ?map_id_if; auto using map_id_upsertTable. }
  split; [exact H|].
  intros Hnd. destruct H as [-> | [Hnew ->]]; [exact Hnd|].
  apply NoDup_app; [exact Hnd | constructor; [intros [] | constructor] |].
  intros a Ha [<- | []]. contradiction.
Qed.

Lemma row_eq (x y : Row) :
  id x = id y -> environment_id x = environment_id y ->
  heartbeat x = heartbeat y -> responsible x = responsible y -> x = y.
Proof. destruct x, y; cbn; intros; subst; reflexivity. Qed.

Lemma upsertTable_nth u e hb t i x :
  nth_error t i = Some x ->
  nth_error (upsertTable u e hb t) i
  = Some (if byId u x then setEnvHeartbeat e hb x else x).
Proof.
  intros Hi. unfold upsertTable. destruct (existsb (byId u) t) eqn:Hex.
  - apply nth_error_map_if. exact Hi.
  - rewrite nth_error_app1 by (apply nth_error_Some; congruence).
    rewrite Hi. f_equal.
    destruct (byId u x) eqn:Hb; [|reflexivity].
    assert (Hc : existsb (byId u) t = true).
    { apply existsb_exists. exists x. split; [|exact Hb]. eapply nth_error_In; eauto. }
    congruence.
Qed.

Lemma spared_refl e x : spared e x x.
Proof. unfold spared. auto. Qed.

Lemma spared_nth_claim u e (t0 : Table) i x :
  id x <> u ->
  (exists x', nth_error t0 i = Some x' /\ spared e x x') ->
  exists x', nth_error (claimOurs u t0) i = Some x' /\ spared e x x'.
Proof.
  intros Hid (x' & Hi & Hsp). exists x'. split; [|exact Hsp].
  unfold claimOurs. rewrite (nth_error_map_if _ _ _ _ _ Hi).
  unfold byId. destruct Hsp as (Hid' & _).
  destruct (N.eqb_spec (id x') u); [congruence | reflexivity].
Qed.

(** X4.  An iteration of replica [u] for the environment [e] spares the
    rows of the others: a row with another identifier stays at its place
    with its identifier, its environment and its heartbeat; its responsible
    flag stays too, or is set to ['n'] if the row belongs to [e]; and a row
    of another environment does not change at all. *)
Theorem iteration_spares_others dbw clk env h l t rds i x :
  nth_error t i = Some x ->
  id x <> ourUUID h ->
  exists x', nth_error (table (iteration dbw clk env h l t rds)) i = Some x'
             /\ id x' = id x
             /\ environment_id x' = environment_id x
             /\ heartbeat x' = heartbeat x
             /\ (responsible x' = responsible x
                 \/ (environment_id x = ID env /\ responsible x' = "n"%string))
             /\ (environment_id x <> ID env -> x' = x).
Proof.
  intros Hi Hid.
  assert (Hsp : exists x', nth_error (table (iteration dbw clk env h l t rds)) i = Some x'
                           /\ spared (ID env) x x').
  { assert (H1 : exists x', nth_error (upsertTable (ourUUID h) (ID env)
                                         (Unix (nowUpsert clk)) t) i = Some x'
                            /\ spared (ID env) x x').
    { exists x. split; [|apply spared_refl].
      rewrite (upsertTable_nth _ _ _ _ _ _ Hi). unfold byId.
      destruct (N.eqb_spec (id x) (ourUUID h)); [contradiction | reflexivity]. }
    destruct (iteration_table dbw clk env h l t rds) as [H | [H | [H | [H | H]]]];
      rewrite H.
    - exists x. split; [exact Hi | apply spared_refl].
    - exact H1.
    - apply spared_nth_claim; assumption.
    - apply spared_nth_claim; [assumption|].
      destruct H1 as (x1 & Hi1 & Hsp1).
      exists (if byEnv (ID env) x1 then setResponsible "n" x1 else x1). split.
      + unfold resetEnv. apply nth_error_map_if. exact Hi1.
      + destruct Hsp1 as (Ha & Hb & Hc & Hd). unfold byEnv.
        destruct (String.eqb_spec (environment_id x1) (ID env)) as [He | He];
          unfold spared; cbn; repeat split; auto.
        right. split; [congruence | reflexivity].
    - exists x. split; [|apply spared_refl].
      unfold releaseOurs. rewrite (nth_error_map_if _ _ _ _ _ Hi). unfold byId.
      destruct (N.eqb_spec (id x) (ourUUID h)); [contradiction | reflexivity]. }
  destruct Hsp as (x' & Hi' & Ha & Hb & Hc & Hd).
  exists x'. repeat split; auto.
  intros Hne. apply row_eq; auto.
  destruct Hd as [Hd | [Hd _]]; [exact Hd | contradiction].
Qed.

(** X5.  An election never takes the responsible flag from the replica
    that runs it: if the table has rows of ours and they are marked ['y'],
    then whatever the election finds and whether it commits or fails, our
    rows are marked ['y'] afterwards.  Only [ceaseOperation], or the
    takeover of another replica, clears the flag. *)
Theorem election_keeps_own_flag dbw clk env h l t rds :
  (exists x, In x t /\ id x = ourUUID h) ->
  (forall x, In x t -> id x = ourUUID h -> responsible x = "y"%string) ->
  (exists x, In x (table (takeover dbw clk env h l t rds)) /\ id x = ourUUID h)
  /\ forall x, In x (table (takeover dbw clk env h l t rds)) ->
               id x = ourUUID h -> responsible x = "y"%string.
Proof.
  intros Hex Hy. rewrite takeover_table.
  set (t1 := upsertTable (ourUUID h) (ID env) (Unix (nowUpsert clk)) t).
  assert (H1 : (exists x, In x t1 /\ id x = ourUUID h)
               /\ forall x, In x t1 -> id x = ourUUID h -> responsible x = "y"%string).
  { split; [apply upsertTable_self|].
    intros x Hin Hid.
    destruct (upsertTable_in _ _ _ _ _ Hin)
      as [[Hn _] | (_ & _ & _ & [(x0 & Hin0 & Hid0 & ->) | (Hno & _)])].
    - contradiction.
    - apply Hy; assumption.
    - destruct Hex as (x0 & Hin0 & Hid0). destruct (Hno x0 Hin0 Hid0). }
  assert (Hclaim : forall t0, (exists x, In x t0 /\ id x = ourUUID h) ->
            (exists x, In x (claimOurs (ourUUID h) t0) /\ id x = ourUUID h)
            /\ forall x, In x (claimOurs (ourUUID h) t0) ->
                         id x = ourUUID h -> responsible x = "y"%string).
  { intros t0 (x0 & Hin0 & Hid0). split.
    - apply (claimOurs_keeps _ _ x0); assumption.
    - intros x Hin Hid. apply claimOurs_spec in Hin. tauto. }
  destruct (SqlTransaction dbw (election dbw clk h env (theirUUID l)) t)
    as [[e | r] t'] eqn:Htx; cbn [snd].
  - destruct (election_fails _ _ _ _ _ _ _ _ Htx) as [-> _]. auto.
  - destruct (election_commits _ _ _ _ _ _ _ _ Htx) as [-> | [[_ ->] | [_ ->]]].
    + exact H1.
    + apply Hclaim. apply H1.
    + apply Hclaim. destruct H1 as [(x0 & Hin0 & Hid0) _].
      destruct (resetEnv_image (ID env) t1 x0 Hin0) as (x1 & Hin1 & Hid1).
      exists x1. split; [exact Hin1 | congruence].
Qed.

(** X6.  A committed election leaves a row of ours in the table, in the
    environment of the election and with the heartbeat of its upsert, and
    every row of ours is so; hence a sweep up to twenty-nine seconds later
    keeps it: a replica that elects at least that often is never swept. *)
Theorem elected_row_survives_sweep dbw clk h env their t r t' dbw2 now2 :
  SqlTransaction dbw (election dbw clk h env their) t = (inr r, t') ->
  Unix now2 - Unix (nowUpsert clk) <= 29 ->
  (forall x, In x t' -> id x = ourUUID h ->
             environment_id x = ID env /\ heartbeat x = Unix (nowUpsert clk))
  /\ (exists x, In x t' /\ id x = ourUUID h)
  /\ forall x, In x t' -> id x = ourUUID h ->
               In x (snd (cleanUpInstances dbw2 now2 t')).
Proof.
  intros Htx Hage.
  set (t1 := upsertTable (ourUUID h) (ID env) (Unix (nowUpsert clk)) t).
  assert (Ho1 : owns (ourUUID h) (ID env) (Unix (nowUpsert clk)) t1)
    by apply owns_upsert_self.
  assert (Hex1 : exists x, In x t1 /\ id x = ourUUID h) by apply upsertTable_self.
  assert (Hall : owns (ourUUID h) (ID env) (Unix (nowUpsert clk)) t'
                 /\ exists x, In x t' /\ id x = ourUUID h).
  { destruct (election_commits _ _ _ _ _ _ _ _ Htx) as [-> | [[_ ->] | [_ ->]]].
    - auto.
    - split; [apply owns_claim; exact Ho1|].
      destruct Hex1 as (x0 & Hin0 & Hid0). apply (claimOurs_keeps _ _ x0); assumption.
    - split; [apply owns_claim, owns_reset; exact Ho1|].
      destruct Hex1 as (x0 & Hin0 & Hid0).
      destruct (resetEnv_image (ID env) t1 x0 Hin0) as (x1 & Hin1 & Hid1).
      apply (claimOurs_keeps _ _ x1); [exact Hin1 | congruence]. }
  destruct Hall as [Ho Hex]. split; [exact Ho|]. split; [exact Hex|].
  intros x Hin Hid. rewrite cleanUpInstances_unfold.
  destruct (sqlErr dbw2 DeleteExpired); [exact Hin|].
  destruct (sqlErr dbw2 Commit); [exact Hin|].
  cbn [snd]. apply filter_In. split; [exact Hin|].
  destruct (Ho x Hin Hid) as [_ ->]. apply Z.ltb_lt. lia.
Qed.


(** ** How an iteration ends *)

(** The two ways an iteration returns an error. *)
Lemma iteration_returns dbw0 clk env h l t rds e :
  outcome (iteration dbw0 clk env h l t rds) = Return e ->
  ((exists s, sqlErr dbw0 s = Some e)
   /\ ha (iteration dbw0 clk env h l t rds) = h
   /\ table (iteration dbw0 clk env h l t rds) = t
   /\ redis (iteration dbw0 clk env h l t rds) = rds)
  \/ (publishErr dbw0 = Some e
      /\ redis (iteration dbw0 clk env h l t rds)
         = (if publishReached dbw0 then rds ++ [wakeup h] else rds)
      /\ getResponsibility (ha (iteration dbw0 clk env h l t rds)) = TakeoverSync
      /\ IsResponsible (ha (iteration dbw0 clk env h l t rds)) = true
      /\ responsibleSince (ha (iteration dbw0 clk env h l t rds))
         = responsibleSince h
      /\ exists their t',
           SqlTransaction dbw0 (election dbw0 clk h env (theirUUID l)) t
           = (inr (true, their), t')
           /\ table (iteration dbw0 clk env h l t rds) = t').
Proof.
  intros H0. revert H0.
  destruct (iteration_cases dbw0 clk env h l t rds)
    as [(r & lg & Hit & _) | [(_ & Hit) | [(a & _ & _ & Hit) | (_ & _ & Hit)]]];
    rewrite Hit.
  - discriminate.
  - discriminate.
  - rewrite takeover_unfold. cbn [theirUUID nextAction].
    destruct (SqlTransaction dbw0 (election dbw0 clk h env (theirUUID l)) t)
      as [[e0 | [[|] their]] t'] eqn:Htx.
    + cbn. intros H. injection H as <-. left.
      destruct (election_fails _ _ _ _ _ _ _ _ Htx) as [-> Hs]. auto.
    + cbv zeta.
      assert (Hcase : forall P : Iteration -> Prop,
                (forall it0, outcome it0 = Wait -> P it0) ->
                (forall since e1, responsibleSince h = Some since ->
                                  publishErr dbw0 = Some e1 ->
                                  P (mkIter (promoted h) (mkLocals a their) t'
                                            (if publishReached dbw0
                                             then rds ++ [wakeup h] else rds)
                                            (takingOverLog h their) (Return e1))) ->
                P (match getResponsibility h with
                   | stop => mkIter h (mkLocals a their) t' rds [] Wait
                   | _ =>
                       match responsibleSince h with
                       | None => mkIter (provisional h (nowConfirm clk))
                                        (mkLocals a their) t' rds [] Wait
                       | Some since =>
                           if 5 * Second <=? nowConfirm clk - since then
                             match publishErr dbw0 with
                             | Some e1 => mkIter (promoted h) (mkLocals a their) t'
                                                 (if publishReached dbw0
                                                  then rds ++ [wakeup h] else rds)
                                                 (takingOverLog h their) (Return e1)
                             | None => mkIter (promoted h) (mkLocals a their) t'
                                              (rds ++ [wakeup h])
                                              (takingOverLog h their) Wait
                             end
                           else mkIter h (mkLocals a their) t' rds [] Wait
                       end
                   end)).
      { intros P Hw Hp.
        destruct (getResponsibility h); try (apply Hw; reflexivity);
          (destruct (responsibleSince h) as [since|] eqn:Hs; [|apply Hw; reflexivity];
           destruct (5 * Second <=? nowConfirm clk - since); [|apply Hw; reflexivity];
           destruct (publishErr dbw0) as [e1|] eqn:Hp1;
           [apply (Hp since e1); auto | apply Hw; reflexivity]). }
      apply Hcase.
      * intros it0 Hw Hr. congruence.
      * intros since e1 Hs Hp H. cbn in H. injection H as <-. right.
        cbn. repeat split; auto. exists their, t'. auto.
    + cbn. discriminate.
  - rewrite cease_unfold.
    destruct (SqlTransaction dbw0 (release dbw0 clk h env) t) as [[e0 | u] t'] eqn:Htx.
    + cbn. intros H. injection H as <-. left.
      destruct (release_fails _ _ _ _ _ _ _ Htx) as [-> Hs]. auto.
    + cbn. discriminate.
Qed.

(** X7.  An iteration returns an error only in two ways.  Either a
    statement of its transaction or the commit failed: the error is that
    one, the table is rolled back, and the controller and Redis are as
    before.  Or the call of [Publish] returned an error: the error is that
    one, the message has gone out or not (once at most), but the election
    is committed and the controller has already been set to
    [TakeoverSync].  With no fault an iteration never returns. *)
Theorem iteration_error_exits dbw clk env h l t rds :
  let it := iteration dbw clk env h l t rds in
  (forall e, outcome it = Return e ->
     ((exists s, sqlErr dbw s = Some e)
      /\ ha it = h /\ table it = t /\ redis it = rds)
     \/ (publishErr dbw = Some e
         /\ redis it = (if publishReached dbw
                        then rds ++ [(wakeupChannel, UUID_String (ourUUID h))]
                        else rds)
         /\ getResponsibility (ha it) = TakeoverSync
         /\ IsResponsible (ha it) = true
         /\ responsibleSince (ha it) = responsibleSince h
         /\ exists their t',
              SqlTransaction dbw (election dbw clk h env (theirUUID l)) t
              = (inr (true, their), t')
              /\ table it = t'))
  /\ forall e, outcome (iteration noFaults clk env h l t rds) <> Return e.
Proof.
  intros it. split; [intros e; apply iteration_returns|].
  intros e He.
  destruct (iteration_returns noFaults clk env h l t rds e He)
    as [((s & Hs) & _) | (Hp & _)]; discriminate.
Qed.

Lemma perform_reaches_select dbw clk env h l t rds :
  outcome (perform dbw clk env h l t rds) <> Continue.
Proof.
  unfold perform. destruct (nextAction l).
  - discriminate.
  - unfold takeover.
    destruct (SqlTransaction dbw _ t) as [[e | [jto their]] t']; [discriminate|].
    destruct (if _ : bool then _ else _) as [[[h1 r1] l1] o1].
    destruct o1; discriminate.
  - unfold takeover.
    destruct (SqlTransaction dbw _ t) as [[e | [jto their]] t']; [discriminate|].
    destruct (if _ : bool then _ else _) as [[[h1 r1] l1] o1].
    destruct o1; discriminate.
  - unfold cease. destruct (SqlTransaction dbw _ t) as [[e | u] t']; discriminate.
Qed.

(** The iterations that end with [continue], and where they leave the
    controller. *)
Lemma iteration_continues dbw clk env h l t rds :
  outcome (iteration dbw clk env h l t rds) = Continue ->
  (icinga2IsAlive h (nowDecide clk) = false
   /\ (getResponsibility (ha (iteration dbw clk env h l t rds)) = notReadyForTakeover
       \/ getResponsibility (ha (iteration dbw clk env h l t rds)) = stop))
  \/ (icinga2IsAlive h (nowDecide clk) = true
      /\ getResponsibility (ha (iteration dbw clk env h l t rds)) = readyForTakeover).
Proof.
  unfold iteration, chooseAction.
  destruct (getResponsibility h);
    destruct (icinga2IsAlive h (nowDecide clk)); cbn [negb];
    try (destruct (_ && _)); cbn [outcome ha fst setResponsibility getResponsibility
                                   h_responsibility];
    auto; intros Hc; exfalso; revert Hc; apply perform_reaches_select.
Qed.

(** X8.  The loop does not spin: after an iteration that ended with
    [continue], the next one gets to the [select] or returns, unless the
    verdict on the upstream has changed in between. *)
Theorem loop_does_not_spin dbw clk env h l t rds dbw' clk' env' :
  outcome (iteration dbw clk env h l t rds) = Continue ->
  icinga2IsAlive (ha (iteration dbw clk env h l t rds)) (nowDecide clk')
  = icinga2IsAlive h (nowDecide clk) ->
  outcome (again dbw' clk' env' (iteration dbw clk env h l t rds)) <> Continue.
Proof.
  intros Hc Hsame.
  pose proof (iteration_continues _ _ _ _ _ _ _ Hc) as Hnext.
  set (it := iteration dbw clk env h l t rds) in *.
  unfold again, iteration, chooseAction.
  rewrite Hsame.
  destruct Hnext as [[Ha [Hs | Hs]] | [Ha Hs]]; rewrite Hs, ?Ha; cbn [negb];
    try (destruct (_ && _)); cbn [outcome]; apply perform_reaches_select.
Qed.

(** ** The heartbeat and the gate *)

Lemma Unix_lt_iff (t : Time) (k : Z) : Unix t < k <-> t < k * Second.
Proof.
  unfold Unix, Second. split; intros H.
  - destruct (Z_lt_le_dec t (k * 1000000000)) as [Hlt | Hge]; [exact Hlt|].
    exfalso.
    assert (Hk : k <= t / 1000000000) by (apply Z.div_le_lower_bound; lia).
    lia.
  - apply Z.div_lt_upper_bound; lia.
Qed.

(** X9.  After a heartbeat of the upstream at [t], the upstream counts as
    alive at [t'] exactly when [t'] is before the end of the fifteenth
    second after the second of [t] (the difference of the two seconds
    fitting [int64]); the heartbeat writes nothing else of the
    controller. *)
Theorem alive_until_fifteen_seconds h t t' :
  - 2 ^ 63 <= Unix t' - Unix t < 2 ^ 63 ->
  (icinga2IsAlive (Icinga2HeartBeat h t) t' = true <-> t' < (Unix t + 15) * Second)
  /\ getResponsibility (Icinga2HeartBeat h t) = getResponsibility h
  /\ responsibleSince (Icinga2HeartBeat h t) = responsibleSince h
  /\ runningCriticalOperations (Icinga2HeartBeat h t) = runningCriticalOperations h
  /\ lastCriticalOperationEnd (Icinga2HeartBeat h t) = lastCriticalOperationEnd h
  /\ ourUUID (Icinga2HeartBeat h t) = ourUUID h.
Proof.
  intros Hfit. split; [|repeat split].
  unfold icinga2IsAlive, Icinga2HeartBeat. cbn [icinga2MTime].
  rewrite sub64_exact by exact Hfit.
  rewrite Z.ltb_lt, <- Unix_lt_iff. lia.
Qed.

(** X10.  The gate keeps the controller from ceasing for five seconds
    after a critical operation: when [RunCriticalOperation] has run an
    operation that ended at [now], the gate does not count as drained at
    any clock reading before the end of the fifth second after the second
    of [now]; and a controller in [stop] then chooses [doTakeover] and
    stays as it is. *)
Theorem gate_settles_for_five_seconds (World : Type) (h : HA) (op : Op World)
        (w : World) (now : Time) dbw clk env l t rds :
  getResponsibility h = TakeoverSync \/ getResponsibility h = stop ->
  - 2 ^ 63 <= Unix (nowDecide clk) - Unix now < 2 ^ 63 ->
  nowDecide clk < (Unix now + 5) * Second ->
  let h' := fst (fst (RunCriticalOperation h op w now)) in
  let it := iteration dbw clk env h' l t rds in
  drained h' (nowDecide clk) = false
  /\ (getResponsibility h = stop ->
      nextAction (locals it) = doTakeover /\ ha it = h').
Proof.
  intros Hr Hfit Hsoon h' it.
  assert (Hend : lastCriticalOperationEnd h' = Unix now
                 /\ getResponsibility h' = getResponsibility h).
  { subst h'. unfold RunCriticalOperation.
    destruct Hr as [Hr | Hr]; rewrite Hr;
      destruct (op (addRunningCriticalOperations h 1) w); cbn; auto. }
  destruct Hend as [Hend Hsame].
  assert (Hd : drained h' (nowDecide clk) = false).
  { unfold drained. rewrite Hend, sub64_exact by exact Hfit.
    apply andb_false_iff. right. apply Z.leb_gt.
    apply Unix_lt_iff in Hsoon. lia. }
  split; [exact Hd|].
  intros Hs. rewrite Hs in Hsame. subst it.
  rewrite (iteration_perform _ _ _ _ _ _ _ _ _ _ (chooseAction_stop h' clk Hsame)).
  rewrite Hd. cbv zeta. cbn [ha locals]. unfold perform. cbn [nextAction].
  rewrite takeover_nextAction. split; [reflexivity|].
  apply (takeover_stop dbw clk env h' _ t rds Hsame).
Qed.


(** ** The whole of [run] *)

(** An iteration writes the responsibility and [responsibleSince], nothing
    else of the controller. *)
Lemma iteration_keeps_atomics dbw clk env h l t rds :
  let it := iteration dbw clk env h l t rds in
  ourUUID (ha it) = ourUUID h
  /\ icinga2MTime (ha it) = icinga2MTime h
  /\ runningCriticalOperations (ha it) = runningCriticalOperations h
  /\ lastCriticalOperationEnd (ha it) = lastCriticalOperationEnd h.
Proof.
  intros it.
  destruct (iteration_cases dbw clk env h l t rds)
    as [(r & lg & Hit & _) | [(_ & Hit) | [(a & _ & _ & Hit) | (_ & _ & Hit)]]];
    fold it in Hit; rewrite Hit.
  - cbn. auto.
  - cbn. auto.
  - destruct (takeover_effect dbw clk env h (mkLocals a (theirUUID l)) t rds)
      as [(Hh & _) | [(their & t' & _ & _ & _ & Hk)
                     | (their & t' & since & _ & _ & _ & _ & Hh & _)]].
    + rewrite Hh. auto.
    + rewrite Hk. cbn. auto.
    + rewrite Hh. cbn. auto.
  - rewrite cease_unfold.
    destruct (SqlTransaction dbw _ t) as [[e | u] t']; cbn; auto.
Qed.

(** The controller after an iteration, by the state it was in. *)
Lemma iteration_ha_by_state dbw clk env h l t rds :
  let it := iteration dbw clk env h l t rds in
  let alive := icinga2IsAlive h (nowDecide clk) in
  match getResponsibility h with
  | readyForTakeover =>
      if alive then ha it = ha (takeover dbw clk env h (mkLocals tryTakeover (theirUUID l)) t rds)
      else ha it = fst (setResponsibility h notReadyForTakeover)
  | TakeoverNoSync =>
      if alive then ha it = ha (takeover dbw clk env h (mkLocals tryTakeover (theirUUID l)) t rds)
      else ha it = fst (setResponsibility h stop)
  | TakeoverSync =>
      if alive then ha it = ha (takeover dbw clk env h (mkLocals doTakeover (theirUUID l)) t rds)
      else ha it = fst (setResponsibility h stop)
  | stop =>
      if drained h (nowDecide clk)
      then ha it = ha (cease dbw clk env h (mkLocals ceaseOperation (theirUUID l)) t rds)
      else ha it = h
  | notReadyForTakeover =>
      if alive then ha it = fst (setResponsibility h readyForTakeover)
      else ha it = h
  end.
Proof.
  intros it alive. subst it alive. unfold iteration, chooseAction, drained.
  destruct (getResponsibility h) eqn:Hr;
    try (destruct (icinga2IsAlive h (nowDecide clk)); cbn [negb]; reflexivity).
  destruct (_ && _); cbn [ha perform nextAction]; [reflexivity|].
  apply (takeover_stop dbw clk env h _ t rds Hr).
Qed.

(** One iteration moves the controller along an edge and keeps
    [responsibleSince] fitting the state. *)
Lemma iteration_moves_along_edges dbw clk env h l t rds :
  sinceFits h ->
  let it := iteration dbw clk env h l t rds in
  edge (getResponsibility h) (getResponsibility (ha it)) = true
  /\ sinceFits (ha it).
Proof.
  intros Hfit it.
  assert (Hrefl : forall a, edge a a = true).
  { intros a. destruct a; reflexivity. }
  assert (Hset : forall r, responsibleSince (fst (setResponsibility h r)) = responsibleSince h
                           /\ getResponsibility (fst (setResponsibility h r)) = r).
  { intros r. split; reflexivity. }
  assert (Htk : forall a,
            getResponsibility h <> stop ->
            getResponsibility h <> notReadyForTakeover ->
            edge (getResponsibility h)
                 (getResponsibility (ha (takeover dbw clk env h (mkLocals a (theirUUID l)) t rds)))
            = true
            /\ sinceFits (ha (takeover dbw clk env h (mkLocals a (theirUUID l)) t rds))).
  { intros a Hns Hnn.
    destruct (takeover_effect dbw clk env h (mkLocals a (theirUUID l)) t rds)
      as [(Hh & _) | [(their & t' & _ & _ & Hs & Hk)
                     | (their & t' & since & _ & _ & Hs & _ & Hh & _)]].
    - rewrite Hh. auto.
    - rewrite Hk. cbn [ha]. unfold sinceFits in *. cbn.
      destruct (getResponsibility h); cbn; try congruence; split; auto; discriminate.
    - rewrite Hh. unfold sinceFits in *. cbn.
      destruct (getResponsibility h); cbn; try congruence; split; auto; congruence. }
  pose proof (iteration_ha_by_state dbw clk env h l t rds) as Hby.
  cbv zeta in Hby. fold it in Hby.
  destruct (getResponsibility h) eqn:Hr.
  - destruct (icinga2IsAlive h (nowDecide clk)); rewrite Hby.
    + apply Htk; discriminate.
    + unfold sinceFits in *. rewrite Hr in Hfit. cbn. auto.
  - destruct (icinga2IsAlive h (nowDecide clk)); rewrite Hby.
    + apply Htk; discriminate.
    + unfold sinceFits in *. rewrite Hr in Hfit. cbn. auto.
  - destruct (icinga2IsAlive h (nowDecide clk)); rewrite Hby.
    + apply Htk; discriminate.
    + unfold sinceFits in *. rewrite Hr in Hfit. cbn. auto.
  - destruct (drained h (nowDecide clk)); rewrite Hby.
    + rewrite cease_unfold.
      destruct (SqlTransaction dbw _ t) as [[e | u] t']; cbn [ha].
      * rewrite Hr. auto.
      * unfold sinceFits. cbn. auto.
    + rewrite Hr. auto.
  - destruct (icinga2IsAlive h (nowDecide clk)); rewrite Hby.
    + unfold sinceFits in *. rewrite Hr in Hfit. cbn. auto.
    + rewrite Hr. auto.
Qed.


(** What an iteration publishes: nothing, or one wakeup under the
    identifier of the replica, which it leaves responsible; the call of
    [Publish] returned no error, or the message went out all the same. *)
Lemma takeover_redis dbw clk env h l t rds :
  let it := takeover dbw clk env h l t rds in
  redis it = rds
  \/ (redis it = rds ++ [wakeup h]
      /\ getResponsibility (ha it) = TakeoverSync
      /\ (publishErr dbw = None \/ publishReached dbw = true)).
Proof.
  intros it. subst it. rewrite takeover_unfold.
  destruct (SqlTransaction dbw _ t) as [[e | [[|] their]] t']; auto.
  cbv zeta.
  destruct (getResponsibility h); auto;
    (destruct (responsibleSince h) as [since|]; auto;
     destruct (5 * Second <=? nowConfirm clk - since); auto;
     destruct (publishErr dbw); [destruct (publishReached dbw)|]; auto).
Qed.

Lemma iteration_redis dbw clk env h l t rds :
  let it := iteration dbw clk env h l t rds in
  redis it = rds
  \/ (redis it = rds ++ [wakeup h]
      /\ getResponsibility (ha it) = TakeoverSync
      /\ (publishErr dbw = None \/ publishReached dbw = true)).
Proof.
  intros it.
  destruct (iteration_cases dbw clk env h l t rds)
    as [(r & lg & Hk & _) | [(_ & Hk) | [(a & _ & _ & Hk) | (_ & _ & Hk)]]];
    fold it in Hk; rewrite Hk.
  - auto.
  - auto.
  - apply takeover_redis.
  - left. rewrite cease_unfold.
    destruct (SqlTransaction dbw _ t) as [[e | u] t']; reflexivity.
Qed.

(** The loop after [s ++ [st]] is one step from the loop after [s]. *)
Lemma HA_run_snoc h env (nr : UUID * error) now t rds s st :
  snd nr = None ->
  HA_run h (Some env) nr now t rds (s ++ [st])
  = step (HA_run h (Some env) nr now t rds s) st.
Proof. intros Hn. unfold HA_run. rewrite Hn. apply fold_left_app. Qed.

(** When [run] returns before its loop, it has met nothing. *)
Lemma HA_run_early h first (nr : UUID * error) now t rds s :
  first = None \/ snd nr <> None ->
  HA_run h first nr now t rds s = HA_run h first nr now t rds [].
Proof.
  unfold HA_run. intros [-> | Hn]; [reflexivity|].
  destruct first; [|reflexivity]. destruct (snd nr); [reflexivity | congruence].
Qed.

(** The replica of the loop, after a round. *)
Lemma step_round lp dbw clk w :
  lp_exit lp = Running ->
  let it := iteration dbw clk (lp_env lp) (lp_ha lp) (lp_locals lp)
                      (lp_table lp) (lp_redis lp) in
  lp_ha (step lp (Round dbw clk w)) = ha it
  /\ lp_table (step lp (Round dbw clk w)) = table it
  /\ lp_redis (step lp (Round dbw clk w)) = redis it
  /\ lp_exit (step lp (Round dbw clk w))
     = match outcome it with
       | Return e => Returned (Some e)
       | Continue => Running
       | Wait => match w with EnvClosed => Returned None | _ => Running end
       end.
Proof.
  intros Hr it. unfold step. rewrite Hr. fold it.
  destruct (outcome it); [auto | destruct w; auto | auto].
Qed.

Lemma step_returned lp dbw clk w r :
  lp_exit lp = Returned r -> step lp (Round dbw clk w) = lp.
Proof. intros Hr. unfold step. rewrite Hr. reflexivity. Qed.

(** A step of the loop moves the controller along an edge. *)
Lemma step_moves_along_edges lp st :
  sinceFits (lp_ha lp) ->
  edge (getResponsibility (lp_ha lp)) (getResponsibility (lp_ha (step lp st))) = true
  /\ sinceFits (lp_ha (step lp st)).
Proof.
  intros Hfit.
  assert (Hrefl : forall a, edge a a = true) by (intros a; destruct a; reflexivity).
  destruct st as [dbw clk w | mtime running lastEnd t'].
  - destruct (lp_exit lp) as [|r] eqn:Hr.
    + destruct (step_round lp dbw clk w Hr) as (-> & _).
      apply iteration_moves_along_edges. exact Hfit.
    + rewrite (step_returned lp dbw clk w r Hr). auto.
  - split; [apply Hrefl | exact Hfit].
Qed.

Lemma HA_run_sinceFits h first (nr : UUID * error) now t rds s :
  sinceFits h -> sinceFits (lp_ha (HA_run h first nr now t rds s)).
Proof.
  intros Hfit.
  destruct first as [env|]; [|exact Hfit].
  destruct (snd nr) as [e|] eqn:Hn.
  - unfold HA_run. rewrite Hn. exact Hfit.
  - induction s as [|st s IH] using rev_ind.
    + unfold HA_run. rewrite Hn. exact Hfit.
    + rewrite (HA_run_snoc _ _ _ _ _ _ _ _ Hn).
      apply step_moves_along_edges. exact IH.
Qed.

(** X11.  Along the whole of [run], whatever it meets (rounds of the loop
    with their faults, clock readings and wakings, writes of the other
    goroutines and replicas in between), the controller moves only along
    the edges ready -> provisional -> responsible -> stopping -> not ready
    -> ready (with ready -> not ready and provisional -> stopping), and
    [responsibleSince] is set exactly in the states provisional,
    responsible and stopping: in particular the replica never becomes
    responsible without having been provisional first. *)
Theorem run_moves_along_edges h first (nr : UUID * error) now t rds s st :
  sinceFits h ->
  edge (getResponsibility (lp_ha (HA_run h first nr now t rds s)))
       (getResponsibility (lp_ha (HA_run h first nr now t rds (s ++ [st])))) = true
  /\ sinceFits (lp_ha (HA_run h first nr now t rds (s ++ [st]))).
Proof.
  intros Hfit.
  split; [|apply HA_run_sinceFits; exact Hfit].
  assert (Hrefl : forall a, edge a a = true) by (intros a; destruct a; reflexivity).
  destruct first as [env|].
  - destruct (snd nr) as [e|] eqn:Hn.
    + rewrite (HA_run_early _ _ _ _ _ _ (s ++ [st])),
              (HA_run_early _ _ _ _ _ _ s); [apply Hrefl | | ];
        right; congruence.
    + rewrite (HA_run_snoc _ _ _ _ _ _ _ _ Hn).
      apply step_moves_along_edges, HA_run_sinceFits. exact Hfit.
  - rewrite (HA_run_early _ _ _ _ _ _ (s ++ [st])),
            (HA_run_early _ _ _ _ _ _ s); [apply Hrefl | | ]; left; reflexivity.
Qed.

(** ** What [run] publishes, and under which name *)

Lemma step_identity lp st : ourUUID (lp_ha (step lp st)) = ourUUID (lp_ha lp).
Proof.
  destruct st as [dbw clk w | mtime running lastEnd t'].
  - destruct (lp_exit lp) as [|r] eqn:Hr.
    + destruct (step_round lp dbw clk w Hr) as (-> & _).
      apply iteration_keeps_atomics.
    + rewrite (step_returned lp dbw clk w r Hr). reflexivity.
  - reflexivity.
Qed.

Lemma step_redis lp st :
  lp_redis (step lp st) = lp_redis lp
  \/ (lp_redis (step lp st) = lp_redis lp ++ [wakeup (lp_ha lp)]
      /\ IsResponsible (lp_ha (step lp st)) = true
      /\ exists dbw clk w,
           st = Round dbw clk w
           /\ (publishErr dbw = None \/ publishReached dbw = true)).
Proof.
  destruct st as [dbw clk w | mtime running lastEnd t'].
  - destruct (lp_exit lp) as [|r] eqn:Hr.
    + destruct (step_round lp dbw clk w Hr) as (-> & _ & -> & _).
      destruct (iteration_redis dbw clk (lp_env lp) (lp_ha lp) (lp_locals lp)
                                (lp_table lp) (lp_redis lp))
        as [Hk | (Hk & Hs & Hp)]; [left; exact Hk|].
      right. split; [exact Hk|]. split.
      * unfold IsResponsible. rewrite Hs. reflexivity.
      * eauto.
    + rewrite (step_returned lp dbw clk w r Hr). auto.
  - left. reflexivity.
Qed.

Lemma HA_run_identity h env (nr : UUID * error) now t rds s :
  ourUUID (lp_ha (HA_run h (Some env) nr now t rds s)) = fst nr.
Proof.
  destruct (snd nr) as [e|] eqn:Hn.
  - unfold HA_run. rewrite Hn. reflexivity.
  - induction s as [|st s IH] using rev_ind.
    + unfold HA_run. rewrite Hn. reflexivity.
    + rewrite (HA_run_snoc _ _ _ _ _ _ _ _ Hn), step_identity. exact IH.
Qed.

(** X12.  [run] gives the replica the identifier drawn at its start and
    keeps it; the only thing it ever publishes is the wakeup under that
    identifier, at most one per round, by a round which leaves the replica
    responsible and whose call of [Publish] returned no error or returned
    one although the message had gone out. *)
Theorem run_publishes_own_wakeups h first (nr : UUID * error) now t rds s st :
  (first <> None -> ourUUID (lp_ha (HA_run h first nr now t rds (s ++ [st]))) = fst nr)
  /\ (lp_redis (HA_run h first nr now t rds (s ++ [st]))
      = lp_redis (HA_run h first nr now t rds s)
      \/ (lp_redis (HA_run h first nr now t rds (s ++ [st]))
          = lp_redis (HA_run h first nr now t rds s)
            ++ [(wakeupChannel, UUID_String (fst nr))]
          /\ IsResponsible (lp_ha (HA_run h first nr now t rds (s ++ [st]))) = true
          /\ exists dbw clk w,
               st = Round dbw clk w
               /\ (publishErr dbw = None \/ publishReached dbw = true)))
  /\ exists n, (n <= List.length (s ++ [st]))%nat
               /\ lp_redis (HA_run h first nr now t rds (s ++ [st]))
                  = rds ++ repeat (wakeupChannel, UUID_String (fst nr)) n.
Proof.
  assert (Hearly : forall s', first = None \/ snd nr <> None ->
            lp_redis (HA_run h first nr now t rds s') = rds).
  { intros s' He. rewrite (HA_run_early _ _ _ _ _ _ s' He).
    unfold HA_run. destruct first; [|reflexivity]. destruct (snd nr); reflexivity. }
  assert (Hcount : forall s', exists n, (n <= List.length s')%nat
            /\ lp_redis (HA_run h first nr now t rds s')
               = rds ++ repeat (wakeupChannel, UUID_String (fst nr)) n).
  { intros s'.
    destruct first as [env|];
      [|exists 0%nat; split; [lia|]; rewrite Hearly, app_nil_r; auto].
    destruct (snd nr) as [e|] eqn:Hn;
      [exists 0%nat; split; [lia|]; rewrite Hearly, app_nil_r; auto; right; congruence|].
    induction s' as [|st' s' IH] using rev_ind.
    - exists 0%nat. split; [lia|]. unfold HA_run. rewrite Hn, app_nil_r. reflexivity.
    - destruct IH as (n & Hle & IH).
      rewrite (HA_run_snoc _ _ _ _ _ _ _ _ Hn).
      destruct (step_redis (HA_run h (Some env) nr now t rds s') st')
        as [-> | (-> & _)].
      + exists n. split; [rewrite length_app; lia | exact IH].
      + exists (S n). split; [rewrite length_app; cbn; lia|].
        rewrite IH. unfold wakeup. rewrite HA_run_identity, <- app_assoc.
        f_equal. change [(wakeupChannel, UUID_String (fst nr))]
          with (repeat (wakeupChannel, UUID_String (fst nr)) 1).
        rewrite <- repeat_app. f_equal. lia. }
  split; [|split; [|apply Hcount]].
  - destruct first as [env|]; [intros _; apply HA_run_identity | congruence].
  - destruct first as [env|]; [|left; rewrite !Hearly; auto].
    destruct (snd nr) as [e|] eqn:Hn;
      [left; rewrite !Hearly; auto; right; congruence|].
    rewrite (HA_run_snoc _ _ _ _ _ _ _ _ Hn).
    destruct (step_redis (HA_run h (Some env) nr now t rds s) st)
      as [Hk | (Hk & Hr & Hst)]; [left; exact Hk|].
    right. split; [|split; assumption].
    rewrite Hk. unfold wakeup. rewrite HA_run_identity. reflexivity.
Qed.


(** ** How [run] ends *)

(** Once [run] has returned, it stays so. *)
Lemma step_exit_returned lp st r :
  lp_exit lp = Returned r -> lp_exit (step lp st) = Returned r.
Proof.
  intros Hr. destruct st as [dbw clk w | mtime running lastEnd t'].
  - rewrite (step_returned lp dbw clk w r Hr). exact Hr.
  - exact Hr.
Qed.

(** A step that makes [run] return is a round: with [nil] at the [select]
    on the closed channel, with an error of the database or of Redis. *)
Lemma step_exit_cases lp st :
  lp_exit lp = Running ->
  match lp_exit (step lp st) with
  | Running => True
  | Returned None => exists dbw clk, st = Round dbw clk EnvClosed
  | Returned (Some e) =>
      exists dbw clk w, st = Round dbw clk w
                        /\ ((exists q, sqlErr dbw q = Some e) \/ publishErr dbw = Some e)
  end.
Proof.
  intros Hr. destruct st as [dbw clk w | mtime running lastEnd t'].
  - destruct (step_round lp dbw clk w Hr) as (_ & _ & _ & ->).
    destruct (outcome _) as [| |e] eqn:Ho.
    + exact I.
    + destruct w; [exact I | exact I | eauto].
    + exists dbw, clk, w. split; [reflexivity|].
      destruct (iteration_returns _ _ _ _ _ _ _ _ Ho) as [(Hq & _) | (Hp & _)]; auto.
  - cbn [step lp_exit]. rewrite Hr. exact I.
Qed.

(** A round without faults and without the closing of the channel keeps
    [run] going. *)
Lemma step_goes_on lp clk w :
  lp_exit lp = Running -> w <> EnvClosed ->
  lp_exit (step lp (Round noFaults clk w)) = Running.
Proof.
  intros Hr Hw. destruct (step_round lp noFaults clk w Hr) as (_ & _ & _ & ->).
  destruct (outcome _) as [| |e] eqn:Ho.
  - reflexivity.
  - destruct w; congruence.
  - destruct (iteration_returns _ _ _ _ _ _ _ _ Ho) as [((q & Hq) & _) | (Hp & _)];
      discriminate.
Qed.

(** X13.  [run] returns [nil] only when the environment channel is closed,
    before the loop or at a [select]; it returns an error only when no
    identifier could be drawn or when a round met an error of the database
    or of Redis, and that error is the one returned; [Run] sends on [chErr]
    exactly the error [run] returns, and nothing when it returns [nil] or
    goes on; before its loop [run] writes nothing to the database or to
    Redis; and as long as there is no fault and the channel stays open,
    [run] goes on. *)
Theorem run_exits h first (nr : UUID * error) now t rds script :
  (lp_exit (HA_run h first nr now t rds script) = Returned None ->
   first = None \/ exists dbw clk, In (Round dbw clk EnvClosed) script)
  /\ (forall e, lp_exit (HA_run h first nr now t rds script) = Returned (Some e) ->
        (first <> None /\ snd nr = Some e)
        \/ exists dbw clk w,
             In (Round dbw clk w) script
             /\ ((exists q, sqlErr dbw q = Some e) \/ publishErr dbw = Some e))
  /\ (forall e, In e (Run h first nr now t rds script)
                <-> lp_exit (HA_run h first nr now t rds script) = Returned (Some e))
  /\ (first = None ->
      lp_exit (HA_run h first nr now t rds script) = Returned None
      /\ lp_ha (HA_run h first nr now t rds script) = h
      /\ lp_table (HA_run h first nr now t rds script) = t
      /\ lp_redis (HA_run h first nr now t rds script) = rds)
  /\ (first <> None -> snd nr <> None ->
      lp_exit (HA_run h first nr now t rds script) = Returned (snd nr)
      /\ lp_table (HA_run h first nr now t rds script) = t
      /\ lp_redis (HA_run h first nr now t rds script) = rds)
  /\ (first <> None -> snd nr = None -> Forall undisturbed script ->
      lp_exit (HA_run h first nr now t rds script) = Running).
Proof.
  assert (Hloop : forall s lp,
            lp_exit lp = Running ->
            match lp_exit (fold_left step s lp) with
            | Running => True
            | Returned None => exists dbw clk, In (Round dbw clk EnvClosed) s
            | Returned (Some e) =>
                exists dbw clk w,
                  In (Round dbw clk w) s
                  /\ ((exists q, sqlErr dbw q = Some e) \/ publishErr dbw = Some e)
            end).
  { induction s as [|st s IH] using rev_ind; intros lp Hr.
    - cbn. rewrite Hr. exact I.
    - rewrite fold_left_app. cbn [fold_left].
      specialize (IH lp Hr).
      destruct (lp_exit (fold_left step s lp)) as [|r] eqn:Hs.
      + pose proof (step_exit_cases (fold_left step s lp) st Hs) as Hc.
        destruct (lp_exit (step _ st)) as [|[e|]]; [exact I | |].
        * destruct Hc as (dbw & clk & w & -> & Hc). exists dbw, clk, w.
          split; [apply in_or_app; right; left; reflexivity | exact Hc].
        * destruct Hc as (dbw & clk & ->). exists dbw, clk.
          apply in_or_app; right; left; reflexivity.
      + rewrite (step_exit_returned _ st r Hs).
        destruct r as [e|].
        * destruct IH as (dbw & clk & w & Hin & Hc). exists dbw, clk, w.
          split; [apply in_or_app; left; exact Hin | exact Hc].
        * destruct IH as (dbw & clk & Hin). exists dbw, clk.
          apply in_or_app; left; exact Hin. }
  assert (Hon : forall s lp,
            lp_exit lp = Running -> Forall undisturbed s ->
            lp_exit (fold_left step s lp) = Running).
  { induction s as [|st s IH]; intros lp Hr Hall; [exact Hr|].
    inversion Hall as [|st' s' Hst Hrest]; subst. cbn [fold_left].
    apply IH; [|exact Hrest].
    destruct st as [dbw clk w | mtime running lastEnd t'].
    - destruct Hst as [-> Hw]. apply step_goes_on; assumption.
    - exact Hr. }
  split; [|split; [|split; [|split; [|split]]]].
  - unfold HA_run. destruct first as [env|]; [|auto].
    destruct (snd nr) as [e|]; [discriminate|].
    intros He. right.
    match type of He with
    | lp_exit (fold_left step _ ?lp) = _ => pose proof (Hloop script lp eq_refl) as Hc
    end.
    rewrite He in Hc. exact Hc.
  - intros e. unfold HA_run. destruct first as [env|]; [|discriminate].
    destruct (snd nr) as [e0|].
    + cbn [lp_exit]. intros He. left. split; congruence.
    + intros He. right.
      match type of He with
      | lp_exit (fold_left step _ ?lp) = _ => pose proof (Hloop script lp eq_refl) as Hc
      end.
      rewrite He in Hc. exact Hc.
  - intros e. unfold Run.
    destruct (lp_exit (HA_run h first nr now t rds script)) as [|[e0|]]; cbn [In];
      split; try tauto; try discriminate.
    + intros [-> | []]. reflexivity.
    + intros He. left. congruence.
  - intros ->. unfold HA_run. auto.
  - intros Hf Hn. unfold HA_run. destruct first as [env|]; [|congruence].
    destruct (snd nr) as [e|]; [auto | congruence].
  - intros Hf Hn Hall. unfold HA_run. destruct first as [env|]; [|congruence].
    rewrite Hn. apply Hon; [reflexivity | exact Hall].
Qed.

(** ** Responsibility is kept while the upstream lives *)

(** X14.  A responsible replica gives up only when Icinga 2 is seen dead:
    whatever the database and Redis do in the iteration (an error, an
    election lost to another responsible instance), the replica is still
    responsible after it when its upstream is alive, and when the upstream
    is dead it goes to [stop] without touching the database (the row keeps
    its flag until the critical operations have drained). *)
Theorem responsible_until_upstream_dies dbw clk env h l t rds :
  sinceFits h ->
  getResponsibility h = TakeoverSync ->
  let it := iteration dbw clk env h l t rds in
  (IsResponsible (ha it) = icinga2IsAlive h (nowDecide clk))
  /\ (icinga2IsAlive h (nowDecide clk) = true ->
      responsibleSince (ha it) = responsibleSince h)
  /\ (icinga2IsAlive h (nowDecide clk) = false ->
      getResponsibility (ha it) = stop /\ table it = t /\ redis it = rds
      /\ outcome it = Continue).
Proof.
  intros Hfit Hs it.
  unfold sinceFits in Hfit. rewrite Hs in Hfit.
  destruct (icinga2IsAlive h (nowDecide clk)) eqn:Ha.
  - assert (Hit : it = let r := takeover dbw clk env h (mkLocals doTakeover (theirUUID l)) t rds in
                       mkIter (ha r) (locals r) (table r) (redis r) (logs r) (outcome r)).
    { subst it. unfold iteration, chooseAction. rewrite Hs, Ha. reflexivity. }
    cbv zeta in Hit. rewrite Hit. cbn [ha].
    rewrite takeover_unfold.
    assert (Hh : IsResponsible h = true) by (unfold IsResponsible; rewrite Hs; reflexivity).
    destruct (SqlTransaction dbw _ t) as [[e | [[|] their]] t'];
      [split; [exact Hh|]; split; [reflexivity | discriminate]
      | | split; [exact Hh|]; split; [reflexivity | discriminate]].
    cbv zeta. rewrite Hs.
    destruct (responsibleSince h) as [since|] eqn:Hsince; [|congruence].
    destruct (5 * Second <=? nowConfirm clk - since).
    + destruct (publishErr dbw); cbn [ha];
        (split; [reflexivity|]; split; [cbn; auto | discriminate]).
    + cbn [ha]. split; [exact Hh|]. split; [auto | discriminate].
  - assert (Hit : it = mkIter (fst (setResponsibility h stop)) l t rds [logNotRunning] Continue).
    { subst it. unfold iteration, chooseAction. rewrite Hs, Ha. reflexivity. }
    rewrite Hit. cbn. split; [reflexivity|]. split; [discriminate | auto].
Qed.


(** ** The properties above, at work *)

(** The stale incumbent of replica 1 is taken over by replica 2: its row
    stays first, with its identifier and its heartbeat. *)
Lemma iteration_spares_others_witness :
  nth_error [mkRow 1%N "E" 100 "y"] 0 = Some (mkRow 1%N "E" 100 "y")
  /\ exists x',
       nth_error (table (iteration noFaults (frozen (120 * Second))
                                   (mkEnv "E" "production")
                                   (startHA 2%N (120 * Second)) startLocals
                                   [mkRow 1%N "E" 100 "y"] [])) 0 = Some x'
       /\ id x' = 1%N /\ heartbeat x' = 100.
Proof.
  split; [reflexivity|].
  destruct (iteration_spares_others noFaults (frozen (120 * Second))
              (mkEnv "E" "production") (startHA 2%N (120 * Second)) startLocals
              [mkRow 1%N "E" 100 "y"] [] 0%nat (mkRow 1%N "E" 100 "y") eq_refl)
    as (x' & Hn & Hid & _ & Hhb & _).
  - vm_compute. discriminate.
  - exists x'. auto.
Defined.

(** The responsible replica runs its election again: its row keeps the
    flag. *)
Lemma election_keeps_own_flag_witness :
  exists x,
    In x (table (takeover noFaults (frozen (65 * Second)) (mkEnv "E" "production")
                          (mkHA 1%N 64 TakeoverSync (Some (40 * Second)) 0 0)
                          startLocals [mkRow 1%N "E" 64 "y"] []))
    /\ id x = ourUUID (mkHA 1%N 64 TakeoverSync (Some (40 * Second)) 0 0)
    /\ responsible x = "y"%string.
Proof.
  destruct (election_keeps_own_flag noFaults (frozen (65 * Second))
              (mkEnv "E" "production")
              (mkHA 1%N 64 TakeoverSync (Some (40 * Second)) 0 0)
              startLocals [mkRow 1%N "E" 64 "y"] []) as [(x & Hin & Hid) H].
  - exists (mkRow 1%N "E" 64 "y"). split; [left; reflexivity | reflexivity].
  - intros x [<- | []] _. reflexivity.
  - exists x. split; [exact Hin|]. split; [exact Hid|]. apply H; assumption.
Defined.

(** The row written by the election of second 120 survives the sweep of
    second 149. *)
Lemma elected_row_survives_sweep_witness :
  exists x,
    In x [mkRow 1%N "E" 100 "n"; mkRow 2%N "E" 120 "y"]
    /\ id x = ourUUID (startHA 2%N (120 * Second))
    /\ In x (snd (cleanUpInstances noFaults (149 * Second)
                    [mkRow 1%N "E" 100 "n"; mkRow 2%N "E" 120 "y"])).
Proof.
  destruct (elected_row_survives_sweep noFaults (frozen (120 * Second))
              (startHA 2%N (120 * Second)) (mkEnv "E" "production") 0%N
              [mkRow 1%N "E" 100 "y"] (true, 1%N)
              [mkRow 1%N "E" 100 "n"; mkRow 2%N "E" 120 "y"]
              noFaults (149 * Second))
    as (_ & (x & Hin & Hid) & Hkeep).
  - vm_compute. reflexivity.
  - vm_compute. discriminate.
  - exists x. auto.
Defined.

(** Icinga 2 is dead at second 100 and at second 101: the replica goes to
    not ready and then waits for the ticker. *)
Lemma loop_does_not_spin_witness :
  outcome (iteration noFaults (frozen (100 * Second)) (mkEnv "E" "production")
                     (mkHA 1%N 0 readyForTakeover None 0 0) startLocals [] [])
  = Continue
  /\ outcome (again noFaults (frozen (101 * Second)) (mkEnv "E" "production")
                (iteration noFaults (frozen (100 * Second)) (mkEnv "E" "production")
                           (mkHA 1%N 0 readyForTakeover None 0 0) startLocals [] []))
     <> Continue.
Proof.
  split; [reflexivity|].
  apply (loop_does_not_spin noFaults (frozen (100 * Second)) (mkEnv "E" "production")
           (mkHA 1%N 0 readyForTakeover None 0 0) startLocals [] []
           noFaults (frozen (101 * Second)) (mkEnv "E" "production"));
    vm_compute; reflexivity.
Defined.

(** A heartbeat in second 100 is good until the end of second 114. *)
Lemma alive_until_fifteen_seconds_witness :
  icinga2IsAlive (Icinga2HeartBeat (startHA 1%N 0) (100 * Second + 7))
                 (115 * Second - 1) = true
  /\ icinga2IsAlive (Icinga2HeartBeat (startHA 1%N 0) (100 * Second + 7))
                    (115 * Second) <> true.
Proof.
  destruct (alive_until_fifteen_seconds (startHA 1%N 0) (100 * Second + 7)
              (115 * Second - 1)) as [[_ Hyes] _].
  - vm_compute. split; [discriminate | reflexivity].
  - split; [apply Hyes; vm_compute; reflexivity|].
    vm_compute. discriminate.
Defined.

(** An operation ended in second 68: at second 72 the stopping controller
    goes on. *)
Lemma gate_settles_for_five_seconds_witness :
  drained (fst (fst (RunCriticalOperation
                       (mkHA 1%N 49 stop (Some (40 * Second)) 0 0)
                       (fun _ (w : unit) => (w, None)) tt (68 * Second))))
          (nowDecide (frozen (72 * Second))) = false
  /\ ha (iteration noFaults (frozen (72 * Second)) (mkEnv "E" "production")
                   (fst (fst (RunCriticalOperation
                                (mkHA 1%N 49 stop (Some (40 * Second)) 0 0)
                                (fun _ (w : unit) => (w, None)) tt (68 * Second))))
                   startLocals [mkRow 1%N "E" 71 "y"] [])
     = mkHA 1%N 49 stop (Some (40 * Second)) 0 68.
Proof.
  destruct (gate_settles_for_five_seconds unit
              (mkHA 1%N 49 stop (Some (40 * Second)) 0 0)
              (fun _ (w : unit) => (w, None)) tt (68 * Second)
              noFaults (frozen (72 * Second)) (mkEnv "E" "production")
              startLocals [mkRow 1%N "E" 71 "y"] []) as [Hd Hgo].
  - right. reflexivity.
  - vm_compute. split; [discriminate | reflexivity].
  - vm_compute. reflexivity.
  - split; [exact Hd|].
    destruct (Hgo eq_refl) as [_ ->]. vm_compute. reflexivity.
Defined.

(** The first round of a cold start: from ready to provisional. *)
Lemma run_moves_along_edges_witness :
  sinceFits (mkHA 0%N 0 readyForTakeover None 0 0)
  /\ getResponsibility
       (lp_ha (HA_run (mkHA 0%N 0 readyForTakeover None 0 0)
                      (Some (mkEnv "E" "production")) (1%N, None) (1 * Second) [] []
                      ([] ++ [Round noFaults (frozen (2 * Second)) TickerFired])))
     = TakeoverNoSync
  /\ sinceFits
       (lp_ha (HA_run (mkHA 0%N 0 readyForTakeover None 0 0)
                      (Some (mkEnv "E" "production")) (1%N, None) (1 * Second) [] []
                      ([] ++ [Round noFaults (frozen (2 * Second)) TickerFired]))).
Proof.
  split; [reflexivity|]. split; [vm_compute; reflexivity|].
  apply (run_moves_along_edges (mkHA 0%N 0 readyForTakeover None 0 0)
           (Some (mkEnv "E" "production")) (1%N, None) (1 * Second) [] [] []
           (Round noFaults (frozen (2 * Second)) TickerFired)).
  reflexivity.
Defined.

(** Another instance is marked responsible and fresh: the election is
    lost, the replica stays responsible. *)
Lemma responsible_until_upstream_dies_witness :
  table (iteration noFaults (frozen (65 * Second)) (mkEnv "E" "production")
                   (mkHA 1%N 64 TakeoverSync (Some (40 * Second)) 0 0) startLocals
                   [mkRow 2%N "E" 64 "y"; mkRow 1%N "E" 60 "y"] [])
  = [mkRow 2%N "E" 64 "y"; mkRow 1%N "E" 65 "y"]
  /\ logs (iteration noFaults (frozen (65 * Second)) (mkEnv "E" "production")
                     (mkHA 1%N 64 TakeoverSync (Some (40 * Second)) 0 0) startLocals
                     [mkRow 2%N "E" 64 "y"; mkRow 1%N "E" 60 "y"] [])
     = [logOtherResponsible 2%N]
  /\ IsResponsible
       (ha (iteration noFaults (frozen (65 * Second)) (mkEnv "E" "production")
                      (mkHA 1%N 64 TakeoverSync (Some (40 * Second)) 0 0) startLocals
                      [mkRow 2%N "E" 64 "y"; mkRow 1%N "E" 60 "y"] []))
     = true.
Proof.
  split; [vm_compute; reflexivity|]. split; [vm_compute; reflexivity|].
  destruct (responsible_until_upstream_dies noFaults (frozen (65 * Second))
              (mkEnv "E" "production")
              (mkHA 1%N 64 TakeoverSync (Some (40 * Second)) 0 0) startLocals
              [mkRow 2%N "E" 64 "y"; mkRow 1%N "E" 60 "y"] []) as [-> _].
  - intro H. discriminate H.
  - reflexivity.
  - vm_compute. reflexivity.
Defined.


(** * Two replicas *)

(** ** What an iteration does, for the registry's story *)





(** ** What a release does to the registry's story *)







(** ** The registry's story along an iteration *)


(** ** The two replicas: bookkeeping *)



Lemma peer_peer r : peer (peer r) = r.
Proof. destruct r; reflexivity. Qed.










Lemma run_snoc evs ev c : run (evs ++ [ev]) c = exec ev (run evs c).
Proof. unfold run. rewrite fold_left_app. reflexivity. Qed.



(** ** The two replicas: never responsible together *)

Section Safety.
Variable env : Environment.
Variables uA uB : UUID.






End Safety.



(** ** The two replicas: convergence on the tickers *)

Section TwoReplicas.
Variable env : Environment.
Variables uA uB : UUID.
Variable T0 : Time.











End TwoReplicas.



(** ** The two replicas: the claim *)




(** The ten seconds are the margin: held up for nine seconds, the
    responsible replica finds everything as it left it; held up for ten,
    it finds the other one provisional, stays responsible itself, and
    five seconds later both are. *)
Example held_up_for_ten_seconds :
  (along (fun c ev => nonStale c ev = true) (heldUp 9) warmStart
   /\ state (run (heldUp 9) warmStart) ReplicaA = readyForTakeover
   /\ state (run (heldUp 9) warmStart) ReplicaB = TakeoverSync)
  /\ (state (run (heldUp 10) warmStart) ReplicaA = TakeoverSync
      /\ state (run (heldUp 10) warmStart) ReplicaB = TakeoverSync).
Proof. vm_compute. repeat split. Qed.
